(** * tc-validator: the comparison and verdict engine of [checker.py]

    A shallow embedding of [CheckerBase] (src/checker.py): the two pair
    resolvers [find_cio_pairs] and [find_file_pairs], the two comparators
    [diff] and [diff_dir], and the aggregator [collect_result].

    The program is a thin layer over [pathlib], [stat] and [subprocess]
    running GNU [diff]; the part of those the checker uses is modelled in
    the modules [Path], [Fs] and [Diffutils] below.  Filesystems here hold
    regular files, directories and special entries (FIFOs, sockets,
    devices, dangling links); live symbolic links are not modelled, so a
    normalised absolute path names at most one node and [resolve] returns
    it unchanged.  Text is kept as its UTF-8 bytes. *)

From Stdlib Require Import ZArith Ascii String List Lia Bool.
From stdpp Require Import base option list strings gmap fin_maps.

Local Open Scope string_scope.
Local Open Scope Z_scope.
Local Open Scope list_scope.

(** ** Exceptions

    Python exceptions that can leave the checker, as an error monad. *)

Inductive exn :=
| ValueError (msg : string)
| IndexError
| FileNotFoundError
| NotADirectoryError
| UnicodeDecodeError.

Inductive Exc (A : Type) :=
| Ok (a : A)
| Raise (e : exn).
Arguments Ok {A} a.
Arguments Raise {A} e.

#[global] Instance Exc_ret : MRet Exc := fun A a => Ok a.

#[global] Instance Exc_bind : MBind Exc := fun A B k m =>
  match m with
  | Ok a => k a
  | Raise e => Raise e
  end.

(** A [for] loop whose body may raise: the accumulator is threaded through,
    the first exception ends the loop. *)
Fixpoint for_each {A S} (body : S -> A -> Exc S) (xs : list A) (s : S) : Exc S :=
  match xs with
  | [] => Ok s
  | x :: xs' => s' ← body s x; for_each body xs' s'
  end.

(** ** Paths

    A [pathlib.Path] in normal form is the list of its components; an
    absolute path lists them from the filesystem root. *)

Module Path.

Definition t := list string.

Definition slash : ascii := "/"%char.

(** [path.name]: the last component, empty for the root. *)
Definition name (p : t) : string := List.last p "".

(** [p / q] *)
Definition joinpath (p q : t) : t := p ++ q.

(** [s.join(parts)] *)
Fixpoint join (sep : string) (parts : list string) : string :=
  match parts with
  | [] => ""
  | [c] => c
  | c :: rest => c +:+ sep +:+ join sep rest
  end.

(** [as_posix] of a relative path; the empty path prints as a dot. *)
Definition as_posix_rel (p : t) : string :=
  match p with
  | [] => "."
  | _ => join "/" p
  end.

(** [as_posix] of an absolute path. *)
Definition as_posix (p : t) : string := "/" +:+ join "/" p.

(** [p.relative_to(base)]: [ValueError] unless [base] is a prefix. *)
Fixpoint relative_to (p base : t) {struct base} : Exc t :=
  match base, p with
  | [], _ => Ok p
  | b :: base', c :: p' =>
      if String.eqb b c then relative_to p' base'
      else Raise (ValueError "path is not in the subpath of base")
  | _ :: _, [] => Raise (ValueError "path is not in the subpath of base")
  end.

(** What a program does with a path operand: cut it at the slashes. *)
Fixpoint split_slash (s : string) : list string :=
  match s with
  | EmptyString => [""]
  | String c s' =>
      if Ascii.eqb c slash then "" :: split_slash s'
      else match split_slash s' with
           | [] => [String c ""]
           | w :: ws => String c w :: ws
           end
  end.

(** The components of an absolute operand; [None] for a relative one. *)
Definition parse_abs (s : string) : option t :=
  match s with
  | String c s' => if Ascii.eqb c slash then Some (split_slash s') else None
  | EmptyString => None
  end.

(** A legal entry name: not empty, not a dot name, without a slash. *)
Fixpoint slash_free (s : string) : bool :=
  match s with
  | EmptyString => true
  | String c s' => negb (Ascii.eqb c slash) && slash_free s'
  end.

Definition valid_name (s : string) : bool :=
  negb (String.eqb s "") && negb (String.eqb s ".") && negb (String.eqb s "..")
  && slash_free s.

End Path.

(** ** The filesystem *)

Module Fs.

Inductive special := Fifo | Socket | CharDevice | BlockDevice | DanglingLink.

(** An entry with its [st_mode] as [lstat] reports it. *)
Unset Elimination Schemes.
Inductive node :=
| File (st_mode : Z) (data : string)
| Dir (st_mode : Z) (entries : list (string * node))
| Special (st_mode : Z) (kind : special).
Set Elimination Schemes.

Definition st_mode_of (n : node) : Z :=
  match n with
  | File m _ | Dir m _ | Special m _ => m
  end.

Fixpoint assoc (name : string) (es : list (string * node)) : option node :=
  match es with
  | [] => None
  | (k, n) :: es' => if String.eqb k name then Some n else assoc name es'
  end.

(** Follow a relative path down from a node. *)
Fixpoint walk (n : node) (p : Path.t) : option node :=
  match p with
  | [] => Some n
  | c :: p' =>
      match n with
      | Dir _ es =>
          match assoc c es with
          | Some n' => walk n' p'
          | None => None
          end
      | _ => None
      end
  end.

(** The error of the system call when [walk] finds nothing: a name that
    is missing from a directory or leads through a dangling link is
    [ENOENT], a path that continues below a file is [ENOTDIR]. *)
Fixpoint walk_error (n : node) (p : Path.t) : exn :=
  match p with
  | [] => FileNotFoundError
  | c :: p' =>
      match n with
      | Dir _ es =>
          match assoc c es with
          | Some n' => walk_error n' p'
          | None => FileNotFoundError
          end
      | Special _ DanglingLink => FileNotFoundError
      | _ => NotADirectoryError
      end
  end.

(** Everything below a directory, a parent before its children, prefixed
    with the path of the directory walked.  [pathlib] promises no order
    among the results of a glob. *)
Fixpoint descendants (prefix : Path.t) (n : node) : list Path.t :=
  match n with
  | Dir _ es =>
      flat_map (fun e : string * node =>
                  let (c, child) := e in
                  (prefix ++ [c]) :: descendants (prefix ++ [c]) child) es
  | _ => []
  end.

Fixpoint distinct (names : list string) : bool :=
  match names with
  | [] => true
  | c :: rest => negb (existsb (String.eqb c) rest) && distinct rest
  end.

(** Directory entries carry distinct, legal names, at every level. *)
Fixpoint wf (n : node) : bool :=
  match n with
  | Dir _ es =>
      distinct (map fst es) &&
      forallb (fun e : string * node =>
                 let (c, child) := e in Path.valid_name c && wf child) es
  | _ => true
  end.

End Fs.

(** ** The world the checker runs in

    The filesystem, and what cannot be read off it: which operands [diff]
    fails to read (permission denial, I/O failure), and the listing GNU
    [diff] prints for two text files that differ, given their names and
    contents. *)

Record World := {
  fs_root : Fs.node;
  io_error : string -> bool;
  diff_listing : string -> string -> string -> string -> string
}.

(** The root is a directory, and entries carry distinct, legal names. *)
Definition World_ok (w : World) : bool :=
  match fs_root w with
  | Fs.Dir _ _ => Fs.wf (fs_root w)
  | _ => false
  end.

(** [subprocess.CompletedProcess], with the captured output as text. *)
Record CompletedProcess := {
  returncode : Z;
  stdout : string;
  stderr : string
}.

Definition newline : string := String "010"%char "".

(** ** Captured output as text

    With [text=True] the bytes a process wrote are decoded in the
    encoding of the locale, UTF-8 here, with errors raised, and every
    carriage return, alone or before a line feed, comes out as a line
    feed. *)

Module TextIO.

Definition byte (c : ascii) : N := N_of_ascii c.

Definition between (lo hi : N) (c : ascii) : bool :=
  ((lo <=? byte c) && (byte c <=? hi))%N.

Definition continuation (c : ascii) : bool := between 0x80 0xBF c.

(** The second byte of a sequence of three: no overlong form, no
    surrogate. *)
Definition second_of_three (c1 c2 : ascii) : bool :=
  if (byte c1 =? 0xE0)%N then between 0xA0 0xBF c2
  else if (byte c1 =? 0xED)%N then between 0x80 0x9F c2
  else continuation c2.

(** The second byte of a sequence of four: no overlong form, nothing
    above U+10FFFF. *)
Definition second_of_four (c1 c2 : ascii) : bool :=
  if (byte c1 =? 0xF0)%N then between 0x90 0xBF c2
  else if (byte c1 =? 0xF4)%N then between 0x80 0x8F c2
  else continuation c2.

(** Well-formed UTF-8 (Unicode, table 3-7). *)
Fixpoint utf8_valid (s : string) : bool :=
  match s with
  | EmptyString => true
  | String c1 s1 =>
      if (byte c1 <? 0x80)%N then utf8_valid s1
      else
        match s1 with
        | EmptyString => false
        | String c2 s2 =>
            if between 0xC2 0xDF c1 then continuation c2 && utf8_valid s2
            else
              match s2 with
              | EmptyString => false
              | String c3 s3 =>
                  if between 0xE0 0xEF c1
                  then second_of_three c1 c2 && continuation c3
                       && utf8_valid s3
                  else
                    match s3 with
                    | EmptyString => false
                    | String c4 s4 =>
                        between 0xF0 0xF4 c1 && second_of_four c1 c2
                        && continuation c3 && continuation c4
                        && utf8_valid s4
                    end
              end
        end
  end.

Definition CR : ascii := "013"%char.
Definition LF : ascii := "010"%char.

(** The two replacements of [subprocess]: CR LF by LF, then CR by LF. *)
Fixpoint universal_newlines (s : string) : string :=
  match s with
  | EmptyString => EmptyString
  | String c s' =>
      if Ascii.eqb c CR then
        match s' with
        | String c' s'' =>
            if Ascii.eqb c' LF then String LF (universal_newlines s'')
            else String LF (universal_newlines s')
        | EmptyString => String LF EmptyString
        end
      else String c (universal_newlines s')
  end.

Definition decode (bytes : string) : Exc string :=
  if utf8_valid bytes then Ok (universal_newlines bytes)
  else Raise UnicodeDecodeError.

(** ASCII, and no carriage return: text that decodes to itself. *)
Definition plain_byte (c : ascii) : bool :=
  (byte c <? 0x80)%N && negb (Ascii.eqb c CR).

Fixpoint plain (s : string) : bool :=
  match s with
  | EmptyString => true
  | String c s' => plain_byte c && plain s'
  end.

End TextIO.

(** ** GNU diff

    The invocations the checker makes: options, [--], two operands naming
    regular files.  Exit status 0 is no differences, 1 is differences, 2 is
    trouble, and differing binary files count as trouble (diffutils manual,
    Invoking diff); [-s] reports identical files on standard output.  Two
    operands that name the same file are identical without being read.
    Other operands than regular files are not modelled beyond the
    complaint. *)

Module Diffutils.

Record options := {
  no_dereference : bool;
  report_identical_files : bool
}.

Definition no_options : options :=
  {| no_dereference := false; report_identical_files := false |}.

Definition is_option (a : string) : bool :=
  match a with
  | String c (String _ _) => Ascii.eqb c "-"%char
  | _ => false
  end.

(** Options up to [--]; everything else is an operand. *)
Fixpoint getopt (args : list string) (o : options)
  : option (options * list string) :=
  match args with
  | [] => Some (o, [])
  | a :: rest =>
      if String.eqb a "--" then Some (o, rest)
      else if String.eqb a "-s" || String.eqb a "--report-identical-files"
      then getopt rest {| no_dereference := no_dereference o;
                          report_identical_files := true |}
      else if String.eqb a "--no-dereference"
      then getopt rest {| no_dereference := true;
                          report_identical_files := report_identical_files o |}
      else if is_option a then None
      else match getopt rest o with
           | Some (o', operands) => Some (o', a :: operands)
           | None => None
           end
  end.

(** What a run leaves: the exit status and the bytes written to the
    standard output and to the standard error. *)
Record result := {
  status : Z;
  out : string;
  err : string
}.

(** A complaint about an operand on the standard error. *)
Definition perror (operand reason : string) : string :=
  "diff: " +:+ operand +:+ ": " +:+ reason +:+ newline.

Definition usage : result :=
  {| status := 2; out := "";
     err := "diff: Try 'diff --help' for more information." +:+ newline |}.

(** The bytes of an operand that names a regular file. *)
Definition stat_file (w : World) (operand : string) : option string :=
  match Path.parse_abs operand with
  | Some p =>
      match Fs.walk (fs_root w) p with
      | Some (Fs.File _ data) => Some data
      | _ => None
      end
  | None => None
  end.

(** What [-s] prints for two operands found identical. *)
Definition identical_report (a b : string) : string :=
  "Files " +:+ a +:+ " and " +:+ b +:+ " are identical" +:+ newline.

Definition binary_report (a b : string) : string :=
  "Binary files " +:+ a +:+ " and " +:+ b +:+ " differ" +:+ newline.

Definition identical (o : options) (a b : string) : result :=
  {| status := 0;
     out := if report_identical_files o then identical_report a b else "";
     err := "" |}.

(** The size of the first block diff reads of a file, [st_blksize]: 4096
    on the filesystems of the judge. *)
Definition blksize : nat := 4096.

Fixpoint has_nul (n : nat) (s : string) : bool :=
  match n, s with
  | S n', String c s' => Ascii.eqb c "000"%char || has_nul n' s'
  | _, _ => false
  end.

(** diff takes a file for binary when its first block holds a NUL. *)
Definition binary_file_p (data : string) : bool := has_nul blksize data.

Definition unreadable (w : World) (operand : string) : string :=
  if io_error w operand then perror operand "Permission denied" else "".

Definition compare_files (w : World) (o : options) (a b : string) : result :=
  match stat_file w a, stat_file w b with
  | Some da, Some db =>
      if String.eqb a b then identical o a b
      else if io_error w a || io_error w b
      then {| status := 2; out := "";
              err := unreadable w a +:+ unreadable w b |}
      else if String.eqb da db then identical o a b
      else if binary_file_p da || binary_file_p db
      then {| status := 2; out := binary_report a b; err := "" |}
      else {| status := 1; out := diff_listing w a b da db; err := "" |}
  | _, _ =>
      {| status := 2; out := "";
         err := perror a "No such file or directory" |}
  end.

Definition main (w : World) (args : list string) : result :=
  match getopt args no_options with
  | Some (o, [a; b]) => compare_files w o a b
  | _ => usage
  end.

End Diffutils.

(** ** [pathlib], [stat] and [subprocess] over a world *)

Definition lstat (w : World) (p : Path.t) : Exc Fs.node :=
  match Fs.walk (fs_root w) p with
  | Some n => Ok n
  | None => Raise (Fs.walk_error (fs_root w) p)
  end.

(** Without symbolic links, [resolve] has nothing to rewrite in a
    normalised absolute path, and [stat] is [lstat]. *)
Definition resolve (w : World) (p : Path.t) : Path.t := p.

Definition is_file (w : World) (p : Path.t) : bool :=
  match Fs.walk (fs_root w) p with
  | Some (Fs.File _ _) => true
  | _ => false
  end.

Definition is_dir (w : World) (p : Path.t) : bool :=
  match Fs.walk (fs_root w) p with
  | Some (Fs.Dir _ _) => true
  | _ => false
  end.

(** [p.iterdir()], in the order the directory lists its entries. *)
Definition iterdir (w : World) (p : Path.t) : Exc (list Path.t) :=
  match Fs.walk (fs_root w) p with
  | Some (Fs.Dir _ es) => Ok (map (fun e => Path.joinpath p [e.1]) es)
  | Some (Fs.Special _ Fs.DanglingLink) => Raise FileNotFoundError
  | Some _ => Raise NotADirectoryError
  | None => Raise (Fs.walk_error (fs_root w) p)
  end.

(** [p.rglob("*")]: every entry below [p]; nothing when [p] is not a
    directory. *)
Definition rglob_all (w : World) (p : Path.t) : list Path.t :=
  match Fs.walk (fs_root w) p with
  | Some n => Fs.descendants p n
  | None => []
  end.

(** Octal numerals, as the modes are written. *)
Fixpoint octal_from (acc : Z) (digits : string) : Z :=
  match digits with
  | EmptyString => acc
  | String c rest => octal_from (8 * acc + (Z.of_nat (nat_of_ascii c) - 48)) rest
  end.

Definition octal (digits : string) : Z := octal_from 0 digits.

(** [stat.S_IMODE]: the mode masked with 0o7777. *)
Definition S_IMODE (mode : Z) : Z := Z.land mode 0xfff.

(** ** [RunnerEnv]

    The roots and file names come from the module [notBaekjunCommon], which
    is configuration; the checker is parametric in them. *)

Record RunnerEnv := {
  EXPECTED_CONSOLE : Path.t;
  OUTPUT_DIR : Path.t;
  EXPECTED_FILE : Path.t;
  HOME_DIR : Path.t;
  F_STDIN : string;
  F_STDOUT : string;
  F_STDERR : string
}.

(** Modelled from the spec: the status constants of [RunnerEnv] (module
    [notBaekjunCommon] is not among the sources), with the values the
    docstrings of [diff] and [diff_dir] give them: 0 for identical, 1 for
    different, 2 for error. *)
Definition DIFF_PASS : Z := 0.
Definition DIFF_FAIL : Z := 1.
Definition DIFF_ERR : Z := 2.

(** ** [CheckerBase] *)

(** A Python value as far as the checker looks at it. *)
Inductive pyval :=
| PyNone
| PyInt (z : Z)
| PyStr (s : string).

(** The second component of a comparison result: the text [diff] printed,
    or the permission bits that differ. *)
Inductive payload :=
| Text (s : string)
| Bits (z : Z).

Definition outcome : Type := Z * payload.

Record CheckerBase := {
  target : Path.t;
  args : list string;
  status : pyval
}.

Module Verdict.
Record t := {
  console : gmap string outcome;
  file : gmap string outcome;
  status : pyval
}.
End Verdict.

(** The captured output of a run, as [text=True] hands it over. *)
Definition communicate (r : Diffutils.result) : Exc CompletedProcess :=
  out ← TextIO.decode (Diffutils.out r);
  err ← TextIO.decode (Diffutils.err r);
  Ok {| returncode := Diffutils.status r; stdout := out; stderr := err |}.

(** [exec]: [subprocess.run] capturing the output as text; the one program
    on the search path is [diff]. *)
Definition exec (w : World) (argv : list string) : Exc CompletedProcess :=
  match argv with
  | [] => Raise IndexError
  | prog :: args =>
      if String.eqb prog "diff" then communicate (Diffutils.main w args)
      else Raise FileNotFoundError
  end.

Definition DIFF : list string := ["diff"; "--no-dereference"; "-s"; "--"].

(** The options [DIFF] sets. *)
Definition DIFF_options : Diffutils.options :=
  {| Diffutils.no_dereference := true;
     Diffutils.report_identical_files := true |}.

Definition get_perms (w : World) (path : Path.t) : Exc Z :=
  st ← lstat w path;
  Ok (S_IMODE (Fs.st_mode_of st)).

Definition diff (w : World) (path1 path2 : Path.t) : Exc outcome :=
  let path1 := resolve w path1 in
  let path2 := resolve w path2 in
  if negb (is_file w path1) || negb (is_file w path2)
  then Ok (DIFF_ERR, Text "")
  else
    res ← exec w (DIFF ++ [Path.as_posix path1; Path.as_posix path2]);
    Ok (returncode res, Text (stdout res)).

Definition diff_dir (w : World) (path1 path2 : Path.t) : Exc outcome :=
  let path1 := resolve w path1 in
  let path2 := resolve w path2 in
  if negb (is_dir w path1) || negb (is_dir w path2)
  then Ok (DIFF_ERR, Bits 0)
  else
    perm1 ← get_perms w path1;
    perm2 ← get_perms w path2;
    let status := if Z.eqb perm1 perm2 then DIFF_PASS else DIFF_FAIL in
    Ok (status, Bits (Z.lxor perm1 perm2)).

Section Checker.

Variable env : RunnerEnv.
Variable w : World.

Definition find_cio_pairs : Exc (list (Path.t * Path.t)) :=
  files ← iterdir w (EXPECTED_CONSOLE env);
  Ok (fold_left
        (fun results file =>
           if negb (String.eqb (Path.name file) (F_STDIN env))
           then results ++ [(file, Path.joinpath (OUTPUT_DIR env) [Path.name file])]
           else results)
        files []).

Definition find_file_pairs : Exc (list (Path.t * Path.t)) :=
  for_each
    (fun results file =>
       part ← Path.relative_to file (EXPECTED_FILE env);
       Ok (results ++ [(file, Path.joinpath (HOME_DIR env) part)]))
    (rglob_all w (EXPECTED_FILE env)) [].

(** The body of the loop over the console pairs. *)
Definition collect_cio (console : gmap string outcome) (pair : Path.t * Path.t)
  : Exc (gmap string outcome) :=
  let (expected, actual) := pair in
  if String.eqb (Path.name expected) (F_STDOUT env) then
    r ← diff w expected actual; Ok (<["stdout" := r]> console)
  else if String.eqb (Path.name expected) (F_STDERR env) then
    r ← diff w expected actual; Ok (<["stderr" := r]> console)
  else Raise (ValueError "Unexpected console IO comparison").

(** The body of the loop over the file pairs. *)
Definition collect_file (file : gmap string outcome) (pair : Path.t * Path.t)
  : Exc (gmap string outcome) :=
  let (expected, actual) := pair in
  rel ← Path.relative_to expected (EXPECTED_FILE env);
  let part := Path.as_posix_rel rel in
  if is_file w expected then
    r ← diff w expected actual; Ok (<[part := r]> file)
  else if is_dir w expected then
    r ← diff_dir w expected actual; Ok (<[part := r]> file)
  else Ok file.

Definition collect_result (self : CheckerBase) : Exc Verdict.t :=
  check_cio ← find_cio_pairs;
  console ← for_each collect_cio check_cio ∅;
  check_file ← find_file_pairs;
  file ← for_each collect_file check_file ∅;
  Ok {| Verdict.console := console;
        Verdict.file := file;
        Verdict.status := status self |}.

End Checker.

(** ** What the verdict is expected to hold

    Stated apart from the loops of [collect_result], to compare them with. *)

Definition to_option {A} (m : Exc A) : option A :=
  match m with
  | Ok a => Some a
  | Raise _ => None
  end.

(** The entries below the expected-file root, relative to it. *)
Definition expected_entries (env : RunnerEnv) (w : World) : list Path.t :=
  match Fs.walk (fs_root w) (EXPECTED_FILE env) with
  | Some n => Fs.descendants [] n
  | None => []
  end.

(** The pair of the expected entry at [rel]. *)
Definition file_pair (env : RunnerEnv) (rel : Path.t) : Path.t * Path.t :=
  (EXPECTED_FILE env ++ rel, HOME_DIR env ++ rel).

(** The comparison that belongs to the expected entry at [rel]: of contents
    for a regular file, of permissions for a directory, none otherwise. *)
Definition file_entry (env : RunnerEnv) (w : World) (rel : Path.t)
  : option outcome :=
  let expected := EXPECTED_FILE env ++ rel in
  let actual := HOME_DIR env ++ rel in
  if is_file w expected then to_option (diff w expected actual)
  else if is_dir w expected then to_option (diff_dir w expected actual)
  else None.

(** ** Sample worlds *)

Module Sample.

Definition env : RunnerEnv := {|
  EXPECTED_CONSOLE := ["judge"; "expected"; "console"];
  OUTPUT_DIR := ["judge"; "output"];
  EXPECTED_FILE := ["judge"; "expected"; "file"];
  HOME_DIR := ["home"; "user"];
  F_STDIN := "stdin";
  F_STDOUT := "stdout";
  F_STDERR := "stderr"
|}.

Definition expected_stdout : Path.t := EXPECTED_CONSOLE env ++ ["stdout"].
Definition output_stdout : Path.t := OUTPUT_DIR env ++ ["stdout"].
Definition expected_out : Path.t := EXPECTED_FILE env ++ ["out"].
Definition home_out : Path.t := HOME_DIR env ++ ["out"].

Definition dir (perm : string) (es : list (string * Fs.node)) : Fs.node :=
  Fs.Dir (Z.lor (octal "40000") (octal perm)) es.

Definition reg (data : string) : Fs.node :=
  Fs.File (octal "100644") data.

Definition fifo : Fs.node := Fs.Special (octal "10644") Fs.Fifo.

Definition five : string := "5" +:+ newline.
Definition six : string := "6" +:+ newline.

(** A filesystem holding the four roots under [console], [output],
    [file] and [home], and [extra] entries next to them. *)
Definition layout_with (extra console output file home : list (string * Fs.node))
  : Fs.node :=
  dir "755"
    (("judge", dir "755"
        [("expected", dir "755"
            [("console", dir "755" console); ("file", dir "755" file)]);
         ("output", dir "755" output)])
     :: ("home", dir "755" [("user", dir "755" home)])
     :: extra).

Definition layout := layout_with [].

(** What GNU diff prints for two files of one line each, the two lines
    differing; the sample worlds compare no other text files. *)
Definition one_line_change (da db : string) : string :=
  "1c1" +:+ newline +:+ "< " +:+ da +:+ "---" +:+ newline +:+ "> " +:+ db.

Definition world (root : Fs.node) : World := {|
  fs_root := root;
  io_error := fun _ => false;
  diff_listing := fun _ _ da db => one_line_change da db
|}.

Definition checker : CheckerBase :=
  {| target := ["bin"; "prog"]; args := []; status := PyInt 0 |}.

(** Another program and other arguments, the same execution status. *)
Definition checker_other : CheckerBase :=
  {| target := ["bin"; "other"]; args := ["-v"]; status := PyInt 0 |}.

(** The program printed what was expected; it was to create [out/a.txt]
    and a FIFO [out/pipe], and created the directory [out] alone, with
    other permissions. *)
Definition w_pipe : World :=
  world (layout
           [("stdin", reg "2 3"); ("stdout", reg five)]
           [("stdout", reg five)]
           [("out", dir "755" [("a.txt", reg "x"); ("pipe", fifo)])]
           [("out", dir "744" [])]).

(** As [w_pipe], with a directory outside the four roots. *)
Definition w_pipe_elsewhere : World := {|
  fs_root :=
    layout_with
      [("tmp", dir "1777" [("scratch", reg "notes")])]
      [("stdin", reg "2 3"); ("stdout", reg five)]
      [("stdout", reg five)]
      [("out", dir "755" [("a.txt", reg "x"); ("pipe", fifo)])]
      [("out", dir "744" [])];
  io_error := fun _ => false;
  diff_listing := fun _ _ da db => one_line_change da db
|}.

(** The program printed 6 where 5 was expected. *)
Definition w_six : World :=
  world (layout [("stdout", reg five)] [("stdout", reg six)] [] []).




(** [diff] cannot read the expected output. *)
Definition w_denied : World := {|
  fs_root := fs_root w_six;
  io_error := fun operand =>
    String.eqb operand "/judge/expected/console/stdout";
  diff_listing := diff_listing w_six
|}.

End Sample.

(** ** The rest of [CheckerBase] *)

(** [__init__]: the target and its arguments; no status until the caller
    stores one. *)
Definition CheckerBase_init (target : Path.t) (args : list string)
  : CheckerBase :=
  {| target := target; args := args; status := PyNone |}.

(** [build_run_cmd]: the target, a space, and the arguments joined with
    spaces. *)
Definition build_run_cmd (self : CheckerBase) : string :=
  Path.as_posix (target self) +:+ " " +:+ Path.join " " (args self).

(** A keyword argument of [subprocess.run]. *)
Inductive kwarg :=
| KwBool (b : bool)
| KwObject (v : pyval).

(** The keyword arguments [exec] passes on: those of the caller, then
    [capture_output] and [text] set to [True]. *)
Definition exec_args (kwargs : gmap string kwarg) : gmap string kwarg :=
  <["text" := KwBool true]> (<["capture_output" := KwBool true]> kwargs).

(** ** Vocabulary for the statements below *)

Definition space : ascii := " "%char.

Fixpoint space_free (s : string) : bool :=
  match s with
  | EmptyString => true
  | String c s' => negb (Ascii.eqb c space) && space_free s'
  end.

(** A word of a command line: not empty, without a space. *)
Definition word (s : string) : bool :=
  negb (String.eqb s "") && space_free s.

(** Cut a command line at every space. *)
Fixpoint split_space (s : string) : list string :=
  match s with
  | EmptyString => [""]
  | String c s' =>
      if Ascii.eqb c space then "" :: split_space s'
      else match split_space s' with
           | [] => [String c ""]
           | w :: ws => String c w :: ws
           end
  end.

(** The expected entry at [rel] is one [collect_result] compares. *)
Definition compared (env : RunnerEnv) (w : World) (rel : Path.t) : bool :=
  is_file w (EXPECTED_FILE env ++ rel) || is_dir w (EXPECTED_FILE env ++ rel).

(** The status constants. *)
Definition is_status (s : Z) : Prop :=
  s = DIFF_PASS \/ s = DIFF_FAIL \/ s = DIFF_ERR.

(** More sample worlds. *)
Module Cases.

(** Nothing but the root directory. *)
Definition w_bare : World := Sample.world (Sample.dir "755" []).


(** The directory [expected] of the judge is a regular file. *)
Definition w_below_file : World :=
  Sample.world
    (Sample.dir "755"
       [("judge", Sample.dir "755" [("expected", Sample.reg "")])]).



(** No expected-file root. *)
Definition w_no_file_root : World :=
  Sample.world
    (Sample.dir "755"
       [("judge", Sample.dir "755"
           [("expected", Sample.dir "755"
               [("console", Sample.dir "755"
                   [("stdout", Sample.reg Sample.five)])]);
            ("output", Sample.dir "755"
               [("stdout", Sample.reg Sample.five)])])]).

(** Only the input is given; nothing is expected. *)
Definition w_idle : World :=
  Sample.world (Sample.layout [("stdin", Sample.reg "2 3")] [] [] []).

(** Both output channels are expected; the program wrote 6 for 5 and
    nothing on standard error. *)
Definition w_both : World :=
  Sample.world
    (Sample.layout
       [("stdin", Sample.reg "2 3"); ("stdout", Sample.reg Sample.five);
        ("stderr", Sample.reg "")]
       [("stdout", Sample.reg Sample.six); ("stderr", Sample.reg "")]
       [] []).

(** A tree is expected under [out]; the program created nothing. *)
Definition w_deep : World :=
  Sample.world
    (Sample.layout
       [("stdout", Sample.reg Sample.five)]
       [("stdout", Sample.reg Sample.five)]
       [("out", Sample.dir "755"
           [("sub", Sample.dir "700" [("b.txt", Sample.reg "y")]);
            ("a.txt", Sample.reg "x")])]
       []).

(** The program made a file where a directory was expected, and a
    directory where a file was. *)
Definition w_swapped : World :=
  Sample.world
    (Sample.layout
       [("stdout", Sample.reg Sample.five)]
       [("stdout", Sample.reg Sample.five)]
       [("out", Sample.dir "755" []); ("log", Sample.reg "done")]
       [("out", Sample.reg ""); ("log", Sample.dir "755" [])]).

Definition prog : CheckerBase :=
  {| target := ["bin"; "prog"]; args := ["-n"; "3"]; status := PyStr "TLE" |}.

End Cases.

(** * Properties *)

(** ** The error monad *)

Lemma bind_Ok {A B} (m : Exc A) (k : A -> Exc B) (b : B) :
  m ≫= k = Ok b -> exists a, m = Ok a /\ k a = Ok b.
Proof. destruct m as [a|e]; [eauto | discriminate]. Qed.

Lemma for_each_app {A S} (body : S -> A -> Exc S) xs ys (s : S) :
  for_each body (xs ++ ys) s = s' ← for_each body xs s; for_each body ys s'.
Proof.
  revert s; induction xs as [|x xs IH]; intros s; simpl; [reflexivity|].
  destruct (body s x) as [s'|e]; simpl; [apply IH | reflexivity].
Qed.

Lemma for_each_cons_Ok {A S} (body : S -> A -> Exc S) x xs (s s' : S) :
  body s x = Ok s' -> for_each body (x :: xs) s = for_each body xs s'.
Proof. intros H. simpl. rewrite H. reflexivity. Qed.

Lemma for_each_cons_Raise {A S} (body : S -> A -> Exc S) x xs (s : S) e :
  body s x = Raise e -> for_each body (x :: xs) s = Raise e.
Proof. intros H. simpl. rewrite H. reflexivity. Qed.

Lemma for_each_snoc {A S} (body : S -> A -> Exc S) xs x (s s'' : S) :
  for_each body (xs ++ [x]) s = Ok s'' ->
  exists s', for_each body xs s = Ok s' /\ body s' x = Ok s''.
Proof.
  rewrite for_each_app. intros H. apply bind_Ok in H as [s' [Hxs Hx]].
  exists s'. split; [exact Hxs|].
  simpl in Hx. destruct (body s' x) as [t|e]; [exact Hx | discriminate].
Qed.

(** A loop whose body cannot raise is a left fold. *)
Lemma for_each_total {A S} (body : S -> A -> Exc S) (step : S -> A -> S) xs s :
  (forall s x, In x xs -> body s x = Ok (step s x)) ->
  for_each body xs s = Ok (fold_left step xs s).
Proof.
  revert s; induction xs as [|x xs IH]; intros s Hbody; simpl; [reflexivity|].
  rewrite Hbody by (left; reflexivity). simpl.
  apply IH. intros s' y Hy. apply Hbody. right; exact Hy.
Qed.

(** ** Paths *)

Module PathFacts.
Import Path.

Lemma name_snoc (p : t) (c : string) : name (p ++ [c]) = c.
Proof. unfold name. apply last_last. Qed.

Lemma relative_to_join (base rel : t) : relative_to (base ++ rel) base = Ok rel.
Proof.
  induction base as [|b base IH]; simpl; [reflexivity|].
  rewrite String.eqb_refl. exact IH.
Qed.

Lemma valid_name_slash_free c : valid_name c = true -> slash_free c = true.
Proof. unfold valid_name. intros H. apply andb_prop in H. tauto. Qed.

Lemma split_slash_atom c : slash_free c = true -> split_slash c = [c].
Proof.
  induction c as [|a c IH]; simpl; [reflexivity|].
  intros H. apply andb_prop in H as [Ha Hc].
  apply negb_true_iff in Ha. rewrite Ha, (IH Hc). reflexivity.
Qed.

Lemma split_slash_cons c s :
  slash_free c = true ->
  split_slash (c +:+ "/" +:+ s) = c :: split_slash s.
Proof.
  induction c as [|a c IH]; simpl; [reflexivity|].
  intros H. apply andb_prop in H as [Ha Hc].
  apply negb_true_iff in Ha. rewrite Ha.
  simpl in IH. rewrite (IH Hc). reflexivity.
Qed.

(** Cutting a printed path at the slashes gives its components back. *)
Lemma split_slash_join (p : t) :
  p <> [] -> Forall (fun c => slash_free c = true) p ->
  split_slash (join "/" p) = p.
Proof.
  induction p as [|c p IH]; [congruence|].
  intros _ Hp. inversion Hp as [|? ? Hc Hrest]; subst.
  destruct p as [|d p].
  - simpl. apply split_slash_atom, Hc.
  - change (join "/" (c :: d :: p)) with (c +:+ "/" +:+ join "/" (d :: p)).
    rewrite split_slash_cons by exact Hc.
    rewrite IH; [reflexivity | discriminate | exact Hrest].
Qed.

Lemma parse_abs_as_posix (p : t) :
  p <> [] -> Forall (fun c => slash_free c = true) p ->
  parse_abs (as_posix p) = Some p.
Proof.
  intros Hne Hp.
  change (as_posix p) with (String slash (join "/" p)).
  change (Some (split_slash (join "/" p)) = Some p).
  rewrite split_slash_join by assumption. reflexivity.
Qed.

(** Distinct relative paths print differently. *)
Lemma as_posix_rel_inj (p q : t) :
  p <> [] -> q <> [] ->
  Forall (fun c => slash_free c = true) p ->
  Forall (fun c => slash_free c = true) q ->
  as_posix_rel p = as_posix_rel q -> p = q.
Proof.
  intros Hp Hq Fp Fq Heq.
  rewrite <- (split_slash_join p Hp Fp), <- (split_slash_join q Hq Fq).
  destruct p; [congruence|]. destruct q; [congruence|].
  unfold as_posix_rel in Heq. rewrite Heq. reflexivity.
Qed.

End PathFacts.

(** ** The filesystem *)

Module FsFacts.
Import Fs.

(** Induction over a tree, with the hypothesis for every entry of a
    directory. *)
Lemma node_induction (P : node -> Prop) :
  (forall m data, P (File m data)) ->
  (forall m es, Forall (fun e => P e.2) es -> P (Dir m es)) ->
  (forall m k, P (Special m k)) ->
  forall n, P n.
Proof.
  intros HFile HDir HSpecial.
  fix IH 1. intros [m data | m es | m k].
  - apply HFile.
  - apply HDir. induction es as [|[c child] es IHes]; constructor.
    + apply IH.
    + exact IHes.
  - apply HSpecial.
Qed.

Lemma distinct_NoDup names : distinct names = true -> NoDup names.
Proof.
  induction names as [|c rest IH]; simpl; intros H; constructor.
  - apply andb_prop in H as [H _]. apply negb_true_iff in H.
    intros Hin. apply list_elem_of_In in Hin.
    assert (existsb (String.eqb c) rest = true) as Hex; [|congruence].
    apply existsb_exists. exists c. split; [exact Hin | apply String.eqb_refl].
  - apply andb_prop in H as [_ H]. auto.
Qed.

Lemma assoc_In c es n : assoc c es = Some n -> In (c, n) es.
Proof.
  induction es as [|[k x] es IH]; simpl; [discriminate|].
  destruct (String.eqb_spec k c) as [->|Hne].
  - intros [= ->]. left; reflexivity.
  - intros H. right; auto.
Qed.

Lemma In_assoc c es n :
  NoDup (map fst es) -> In (c, n) es -> assoc c es = Some n.
Proof.
  induction es as [|[k x] es IH]; simpl; [tauto|].
  intros Hnd Hin. apply NoDup_cons in Hnd as [Hk Hnd].
  destruct Hin as [[= -> ->] | Hin].
  - rewrite String.eqb_refl. reflexivity.
  - destruct (String.eqb_spec k c) as [->|Hne]; [|auto].
    exfalso. apply Hk. apply list_elem_of_In.
    apply in_map_iff. exists (c, n). auto.
Qed.

Lemma wf_Dir m es :
  wf (Dir m es) = true ->
  NoDup (map fst es) /\
  forall c n, In (c, n) es -> Path.valid_name c = true /\ wf n = true.
Proof.
  simpl. intros H. apply andb_prop in H as [Hd Hall]. split.
  - apply distinct_NoDup, Hd.
  - intros c n Hin. rewrite forallb_forall in Hall.
    specialize (Hall _ Hin). simpl in Hall.
    apply andb_prop in Hall. exact Hall.
Qed.

Lemma walk_app n p q :
  walk n (p ++ q) = match walk n p with Some n' => walk n' q | None => None end.
Proof.
  revert n; induction p as [|c p IH]; intros n; simpl; [reflexivity|].
  destruct n as [| m es |]; try reflexivity.
  destruct (assoc c es); [apply IH | reflexivity].
Qed.

(** What a well-formed tree holds at a path is well formed, and the path
    is made of legal names. *)
Lemma walk_wf n p n' :
  wf n = true -> walk n p = Some n' ->
  wf n' = true /\ Forall (fun c => Path.slash_free c = true) p.
Proof.
  revert n; induction p as [|c p IH]; intros n Hwf; simpl.
  - intros [= <-]. auto.
  - destruct n as [| m es |]; try discriminate.
    destruct (assoc c es) as [x|] eqn:Hc; [|discriminate].
    apply assoc_In in Hc. apply wf_Dir in Hwf as [_ Hes].
    destruct (Hes _ _ Hc) as [Hv Hx].
    intros Hw. destruct (IH _ Hx Hw) as [? ?].
    split; [assumption|]. constructor; [|assumption].
    apply PathFacts.valid_name_slash_free, Hv.
Qed.

Lemma descendants_prefix n : forall pre,
  descendants pre n = map (app pre) (descendants [] n).
Proof.
  induction n as [m data | m es IH | m k] using node_induction;
    intros pre; try reflexivity.
  simpl. induction es as [|[c child] es IHes]; [reflexivity|].
  inversion IH as [|? ? Hc Hes]; subst. simpl in Hc.
  simpl. rewrite map_app, <- (IHes Hes). f_equal. f_equal.
  rewrite (Hc (pre ++ [c])), (Hc [c]), map_map.
  apply map_ext. intros rel. rewrite <- app_assoc. reflexivity.
Qed.

Lemma descendants_Dir m es rel :
  In rel (descendants [] (Dir m es)) <->
  exists c child, In (c, child) es /\
    (rel = [c] \/ exists rest, rel = c :: rest /\ In rest (descendants [] child)).
Proof.
  simpl. rewrite in_flat_map. split.
  - intros [[c child] [Hin Hrel]]. exists c, child. split; [exact Hin|].
    destruct Hrel as [<- | Hrel]; [left; reflexivity|].
    rewrite descendants_prefix in Hrel. apply in_map_iff in Hrel as [rest [<- ?]].
    right. exists rest. auto.
  - intros [c [child [Hin Hrel]]]. exists (c, child). split; [exact Hin|].
    destruct Hrel as [-> | [rest [-> Hrest]]]; [left; reflexivity|].
    right. rewrite descendants_prefix. apply in_map_iff. exists rest. auto.
Qed.

Lemma descendants_nonempty n rel : In rel (descendants [] n) -> rel <> [].
Proof.
  destruct n as [| m es |]; simpl; try tauto.
  intros H. apply (descendants_Dir m es) in H as [c [child [_ H]]].
  destruct H as [-> | [rest [-> _]]]; discriminate.
Qed.

(** Every entry that can be reached by walking down appears. *)
Lemma walk_descendants n : forall rel n',
  rel <> [] -> walk n rel = Some n' -> In rel (descendants [] n).
Proof.
  induction n as [m data | m es IH | m k] using node_induction;
    intros rel n' Hne Hw; destruct rel as [|c rest]; try congruence;
    try discriminate.
  simpl in Hw. destruct (assoc c es) as [child|] eqn:Hc; [|discriminate].
  apply assoc_In in Hc. apply descendants_Dir. exists c, child.
  split; [exact Hc|]. destruct rest as [|d rest]; [left; reflexivity|].
  right. exists (d :: rest). split; [reflexivity|].
  rewrite List.Forall_forall in IH. apply (IH _ Hc (d :: rest) n'); [discriminate|].
  exact Hw.
Qed.

(** In a well-formed tree nothing else appears. *)
Lemma descendants_walk n : forall rel,
  wf n = true -> In rel (descendants [] n) -> is_Some (walk n rel).
Proof.
  induction n as [m data | m es IH | m k] using node_induction;
    intros rel Hwf Hin; try (simpl in Hin; tauto).
  apply descendants_Dir in Hin as [c [child [Hc Hrel]]].
  apply wf_Dir in Hwf as [Hnd Hes].
  pose proof (In_assoc _ _ _ Hnd Hc) as Hassoc.
  destruct Hrel as [-> | [rest [-> Hrest]]]; simpl; rewrite Hassoc.
  - eauto.
  - rewrite List.Forall_forall in IH. apply (IH _ Hc rest); [|exact Hrest].
    apply (Hes _ _ Hc).
Qed.

End FsFacts.

(** ** The comparators *)

Section Comparators.

Variable w : World.

Lemma exec_DIFF (a b : string) :
  exec w (DIFF ++ [a; b])
  = communicate (Diffutils.compare_files w DIFF_options a b).
Proof. reflexivity. Qed.

Lemma is_file_walk p :
  is_file w p = true <-> exists m data, Fs.walk (fs_root w) p = Some (Fs.File m data).
Proof.
  unfold is_file. split.
  - destruct (Fs.walk (fs_root w) p) as [[m data| |]|]; try discriminate. eauto.
  - intros [m [data ->]]. reflexivity.
Qed.

Lemma is_dir_walk p :
  is_dir w p = true <-> exists m es, Fs.walk (fs_root w) p = Some (Fs.Dir m es).
Proof.
  unfold is_dir. split.
  - destruct (Fs.walk (fs_root w) p) as [[|m es|]|]; try discriminate. eauto.
  - intros [m [es ->]]. reflexivity.
Qed.

(** What [communicate] hands over, and when. *)
Lemma communicate_valid (r : Diffutils.result) :
  TextIO.utf8_valid (Diffutils.out r) = true ->
  TextIO.utf8_valid (Diffutils.err r) = true ->
  communicate r =
    Ok {| returncode := Diffutils.status r;
          stdout := TextIO.universal_newlines (Diffutils.out r);
          stderr := TextIO.universal_newlines (Diffutils.err r) |}.
Proof.
  intros Hout Herr. unfold communicate, TextIO.decode.
  rewrite Hout, Herr. reflexivity.
Qed.

Lemma communicate_invalid (r : Diffutils.result) :
  TextIO.utf8_valid (Diffutils.out r) = false \/
  TextIO.utf8_valid (Diffutils.err r) = false ->
  communicate r = Raise UnicodeDecodeError.
Proof.
  intros H. unfold communicate, TextIO.decode.
  destruct (TextIO.utf8_valid (Diffutils.out r)); [|reflexivity].
  destruct H as [H | ->]; [discriminate | reflexivity].
Qed.

Lemma communicate_cases (r : Diffutils.result) :
  (TextIO.utf8_valid (Diffutils.out r) = true /\
   TextIO.utf8_valid (Diffutils.err r) = true) \/
  (TextIO.utf8_valid (Diffutils.out r) = false \/
   TextIO.utf8_valid (Diffutils.err r) = false).
Proof.
  destruct (TextIO.utf8_valid (Diffutils.out r)),
           (TextIO.utf8_valid (Diffutils.err r)); auto.
Qed.

Lemma diff_regular p1 p2 :
  is_file w p1 = true -> is_file w p2 = true ->
  diff w p1 p2 =
    res ← communicate (Diffutils.compare_files w DIFF_options
                         (Path.as_posix p1) (Path.as_posix p2));
    Ok (returncode res, Text (stdout res)).
Proof.
  intros H1 H2. unfold diff, resolve. rewrite H1, H2. simpl orb. cbv iota.
  rewrite exec_DIFF. reflexivity.
Qed.

Lemma diff_not_regular p1 p2 :
  is_file w p1 = false \/ is_file w p2 = false ->
  diff w p1 p2 = Ok (DIFF_ERR, Text "").
Proof.
  intros H. unfold diff, resolve.
  destruct H as [-> | ->]; [reflexivity|].
  rewrite orb_true_r. reflexivity.
Qed.

(** On two regular files [diff] hands over what GNU diff left, decoded,
    or raises when that cannot be decoded. *)
Lemma diff_regular_cases p1 p2 :
  is_file w p1 = true -> is_file w p2 = true ->
  let r := Diffutils.compare_files w DIFF_options
             (Path.as_posix p1) (Path.as_posix p2) in
  (TextIO.utf8_valid (Diffutils.out r) = true ->
   TextIO.utf8_valid (Diffutils.err r) = true ->
   diff w p1 p2 =
     Ok (Diffutils.status r, Text (TextIO.universal_newlines (Diffutils.out r)))) /\
  (TextIO.utf8_valid (Diffutils.out r) = false \/
   TextIO.utf8_valid (Diffutils.err r) = false ->
   diff w p1 p2 = Raise UnicodeDecodeError).
Proof.
  intros F1 F2 r. rewrite (diff_regular p1 p2 F1 F2). fold r. split.
  - intros Hout Herr. rewrite (communicate_valid r Hout Herr). reflexivity.
  - intros H. rewrite (communicate_invalid r H). reflexivity.
Qed.

(** GNU diff exits with 0, 1 or 2. *)
Lemma compare_files_status o a b :
  let rc := Diffutils.status (Diffutils.compare_files w o a b) in
  rc = 0 \/ rc = 1 \/ rc = 2.
Proof.
  unfold Diffutils.compare_files.
  destruct (Diffutils.stat_file w a) as [da|]; [|simpl; auto].
  destruct (Diffutils.stat_file w b) as [db|]; [|simpl; auto].
  destruct (String.eqb a b); [simpl; auto|].
  destruct (io_error w a || io_error w b); [simpl; auto|].
  destruct (String.eqb da db); [simpl; auto|].
  destruct (Diffutils.binary_file_p da || Diffutils.binary_file_p db);
    simpl; auto.
Qed.


(** What [diff] returns is a status of the three and a text. *)
Lemma diff_outcome p1 p2 (s : Z) (pl : payload) :
  diff w p1 p2 = Ok (s, pl) ->
  (s = DIFF_PASS \/ s = DIFF_FAIL \/ s = DIFF_ERR) /\ exists t, pl = Text t.
Proof.
  unfold DIFF_PASS, DIFF_FAIL, DIFF_ERR.
  destruct (is_file w p1) eqn:F1; [destruct (is_file w p2) eqn:F2|].
  - destruct (diff_regular_cases p1 p2 F1 F2) as [Hok Hbad].
    destruct (communicate_cases (Diffutils.compare_files w DIFF_options
                (Path.as_posix p1) (Path.as_posix p2))) as [[Ho He] | H].
    + rewrite (Hok Ho He). intros [= <- <-].
      split; [apply compare_files_status | eauto].
    + rewrite (Hbad H). discriminate.
  - rewrite diff_not_regular by auto. intros [= <- <-]. eauto.
  - rewrite diff_not_regular by auto. intros [= <- <-]. eauto.
Qed.

(** What diff finds at a regular file named by a printed path. *)
Lemma stat_file_regular p m data :
  World_ok w = true -> Fs.walk (fs_root w) p = Some (Fs.File m data) ->
  Diffutils.stat_file w (Path.as_posix p) = Some data.
Proof.
  unfold World_ok. intros Hok Hp.
  assert (p <> []) as Hne.
  { intros ->. simpl in Hp. injection Hp as Hroot.
    rewrite Hroot in Hok. discriminate. }
  assert (Fs.wf (fs_root w) = true) as Hwf
    by (destruct (fs_root w); congruence).
  destruct (FsFacts.walk_wf _ _ _ Hwf Hp) as [_ Hnames].
  unfold Diffutils.stat_file.
  rewrite PathFacts.parse_abs_as_posix by assumption.
  rewrite Hp. reflexivity.
Qed.

(** Two readable regular files with the same bytes. *)
Lemma compare_files_identical o p1 p2 m1 m2 data :
  World_ok w = true ->
  Fs.walk (fs_root w) p1 = Some (Fs.File m1 data) ->
  Fs.walk (fs_root w) p2 = Some (Fs.File m2 data) ->
  io_error w (Path.as_posix p1) = false ->
  io_error w (Path.as_posix p2) = false ->
  Diffutils.compare_files w o (Path.as_posix p1) (Path.as_posix p2)
  = Diffutils.identical o (Path.as_posix p1) (Path.as_posix p2).
Proof.
  intros Hok H1 H2 E1 E2. unfold Diffutils.compare_files.
  rewrite (stat_file_regular _ _ _ Hok H1), (stat_file_regular _ _ _ Hok H2).
  rewrite E1, E2, String.eqb_refl. cbn [orb].
  destruct (String.eqb (Path.as_posix p1) (Path.as_posix p2)); reflexivity.
Qed.


End Comparators.

(** ** Decoding *)

Module TextFacts.
Import TextIO.

Lemma plain_cons c s : plain (String c s) = plain_byte c && plain s.
Proof. reflexivity. Qed.

Lemma plain_append a b : plain (a +:+ b) = plain a && plain b.
Proof.
  induction a as [|c a IH]; [reflexivity|].
  change (String c a +:+ b) with (String c (a +:+ b)).
  rewrite !plain_cons, IH, andb_assoc. reflexivity.
Qed.

(** ASCII without carriage returns decodes to itself. *)
Lemma decode_plain s : plain s = true -> decode s = Ok s.
Proof.
  intros Hs. unfold decode.
  assert (utf8_valid s = true /\ universal_newlines s = s) as [-> ->];
    [|reflexivity].
  induction s as [|c s IH]; [split; reflexivity|].
  rewrite plain_cons in Hs. apply andb_prop in Hs as [Hc Hs].
  destruct (IH Hs) as [Hv Hn]. unfold plain_byte in Hc.
  apply andb_prop in Hc as [Hlow Hcr]. apply negb_true_iff in Hcr.
  split.
  - cbn [utf8_valid]. rewrite Hlow. exact Hv.
  - cbn [universal_newlines]. rewrite Hcr, Hn. reflexivity.
Qed.

Lemma universal_newlines_nonempty c s :
  universal_newlines (String c s) <> "".
Proof.
  cbn [universal_newlines]. destruct (Ascii.eqb c CR); [|discriminate].
  destruct s as [|c' s]; [discriminate|].
  destruct (Ascii.eqb c' LF); discriminate.
Qed.

End TextFacts.

(** ** Content comparison *)

(** C2, as the code has it.  Two regular files with the same bytes that
    diff can read compare as [DIFF_PASS], and the payload is not empty:
    [DIFF] passes [-s], so diff reports the two resolved paths as
    identical on its standard output, and the payload is that line as
    text mode decodes it, whenever the status is [DIFF_PASS].  For paths
    in ASCII without a carriage return it is the line as diff wrote it; a
    path that is not UTF-8 makes [diff] raise [UnicodeDecodeError]. *)
Theorem diff_identical_files (w : World) (p1 p2 : Path.t) :
  let report :=
    Diffutils.identical_report (Path.as_posix p1) (Path.as_posix p2) in
  (forall m1 m2 data,
      World_ok w = true ->
      Fs.walk (fs_root w) p1 = Some (Fs.File m1 data) ->
      Fs.walk (fs_root w) p2 = Some (Fs.File m2 data) ->
      io_error w (Path.as_posix p1) = false ->
      io_error w (Path.as_posix p2) = false ->
      diff w p1 p2 =
        (if TextIO.utf8_valid report
         then Ok (DIFF_PASS, Text (TextIO.universal_newlines report))
         else Raise UnicodeDecodeError) /\
      (TextIO.plain (Path.as_posix p1) = true ->
       TextIO.plain (Path.as_posix p2) = true ->
       diff w p1 p2 = Ok (DIFF_PASS, Text report))) /\
  (forall t, diff w p1 p2 = Ok (DIFF_PASS, Text t) ->
             t = TextIO.universal_newlines report /\
             TextIO.utf8_valid report = true) /\
  TextIO.universal_newlines report <> "".
Proof.
  intros report. split; [|split].
  - intros m1 m2 data Hok H1 H2 E1 E2.
    assert (diff w p1 p2 =
              (if TextIO.utf8_valid report
               then Ok (DIFF_PASS, Text (TextIO.universal_newlines report))
               else Raise UnicodeDecodeError)) as Hdiff.
    { rewrite diff_regular by (apply is_file_walk; eauto).
      rewrite (compare_files_identical w _ _ _ _ _ _ Hok H1 H2 E1 E2).
      change (communicate (Diffutils.identical DIFF_options
                (Path.as_posix p1) (Path.as_posix p2)))
        with (out ← TextIO.decode report;
              Ok {| returncode := 0; stdout := out; stderr := "" |}).
      unfold TextIO.decode.
      destruct (TextIO.utf8_valid report); reflexivity. }
    split; [exact Hdiff|]. intros P1 P2. rewrite Hdiff.
    assert (TextIO.decode report = Ok report) as Hdec.
    { apply TextFacts.decode_plain. unfold report, Diffutils.identical_report.
      rewrite !TextFacts.plain_append, P1, P2. reflexivity. }
    unfold TextIO.decode in Hdec.
    destruct (TextIO.utf8_valid report); [|discriminate].
    congruence.
  - intros t Ht.
    destruct (is_file w p1) eqn:F1; [destruct (is_file w p2) eqn:F2|];
      try (rewrite diff_not_regular in Ht by auto; discriminate).
    rewrite diff_regular in Ht by assumption.
    apply bind_Ok in Ht as [res [Hres Ht]]. injection Ht as Hrc <-.
    unfold communicate in Hres.
    apply bind_Ok in Hres as [out [Hout Hres]].
    apply bind_Ok in Hres as [err [_ Hres]]. injection Hres as <-.
    cbn [returncode stdout] in Hrc |- *.
    unfold Diffutils.compare_files in Hrc, Hout.
    destruct (Diffutils.stat_file w (Path.as_posix p1)) as [d1|];
      [|discriminate].
    destruct (Diffutils.stat_file w (Path.as_posix p2)) as [d2|];
      [|discriminate].
    assert (TextIO.decode report = Ok out) as Hdec.
    { destruct (String.eqb (Path.as_posix p1) (Path.as_posix p2));
        [exact Hout|].
      destruct (io_error w (Path.as_posix p1) || io_error w (Path.as_posix p2));
        [discriminate|].
      destruct (String.eqb d1 d2); [exact Hout|].
      destruct (Diffutils.binary_file_p d1 || Diffutils.binary_file_p d2);
        discriminate. }
    unfold TextIO.decode in Hdec.
    destruct (TextIO.utf8_valid report); [|discriminate].
    split; [congruence | reflexivity].
  - apply TextFacts.universal_newlines_nonempty.
Qed.

Lemma diff_identical_files_witness :
  World_ok Sample.w_pipe = true /\
  Fs.walk (fs_root Sample.w_pipe) Sample.expected_stdout
  = Some (Sample.reg Sample.five) /\
  Fs.walk (fs_root Sample.w_pipe) Sample.output_stdout
  = Some (Sample.reg Sample.five) /\
  diff Sample.w_pipe Sample.expected_stdout Sample.output_stdout =
    Ok (DIFF_PASS,
        Text (Diffutils.identical_report "/judge/expected/console/stdout"
                                         "/judge/output/stdout")).
Proof.
  split; [reflexivity|]. split; [reflexivity|]. split; [reflexivity|].
  apply (proj1 (diff_identical_files Sample.w_pipe Sample.expected_stdout
                                     Sample.output_stdout)
           (octal "100644") (octal "100644") Sample.five); reflexivity.
Defined.

(** C2 as it is written fails: the program's output equals the expected
    output byte for byte, and the payload is diff's report, not the empty
    string. *)
Lemma diff_identical_payload_not_empty :
  Fs.walk (fs_root Sample.w_pipe) Sample.expected_stdout
  = Some (Sample.reg Sample.five) /\
  Fs.walk (fs_root Sample.w_pipe) Sample.output_stdout
  = Some (Sample.reg Sample.five) /\
  diff Sample.w_pipe Sample.expected_stdout Sample.output_stdout
  = Ok (DIFF_PASS,
        Text ("Files /judge/expected/console/stdout and /judge/output/stdout are identical"
              +:+ newline)) /\
  diff Sample.w_pipe Sample.expected_stdout Sample.output_stdout
  <> Ok (DIFF_PASS, Text "").
Proof.
  split; [reflexivity|]. split; [reflexivity|]. split; [reflexivity|].
  discriminate.
Qed.




(** Denied access to the expected output: status [DIFF_ERR]. *)
Example diff_denied :
  diff Sample.w_denied Sample.expected_stdout Sample.output_stdout
  = Ok (DIFF_ERR, Text "").
Proof. reflexivity. Qed.

(** ** Directory permissions *)

Lemma S_IMODE_low12 (mode : Z) : S_IMODE mode = Z.land mode (Z.ones 12).
Proof. reflexivity. Qed.

Lemma S_IMODE_range (mode : Z) : 0 <= S_IMODE mode < 2 ^ 12.
Proof.
  rewrite S_IMODE_low12, Z.land_ones by lia.
  apply Z.mod_pos_bound. lia.
Qed.

Lemma lxor_range (a b n : Z) :
  0 < n -> 0 <= a < 2 ^ n -> 0 <= b < 2 ^ n -> 0 <= Z.lxor a b < 2 ^ n.
Proof.
  intros Hn Ha Hb.
  assert (0 <= Z.lxor a b) as Hpos by (apply Z.lxor_nonneg; lia).
  split; [exact Hpos|].
  assert (forall x, 0 <= x < 2 ^ n -> Z.log2 x < n) as Hlog.
  { intros x Hx. destruct (Z.eq_dec x 0) as [->|Hx0].
    - simpl. lia.
    - apply Z.log2_lt_pow2; lia. }
  destruct (Z.eq_dec (Z.lxor a b) 0) as [->|Hne].
  - apply Z.pow_pos_nonneg; lia.
  - apply Z.log2_lt_pow2; [lia|].
    pose proof (Z.log2_lxor a b (proj1 Ha) (proj1 Hb)).
    pose proof (Hlog a Ha). pose proof (Hlog b Hb). lia.
Qed.

Lemma diff_dir_not_dir (w : World) (p1 p2 : Path.t) :
  is_dir w p1 = false \/ is_dir w p2 = false ->
  diff_dir w p1 p2 = Ok (DIFF_ERR, Bits 0).
Proof.
  intros H. unfold diff_dir, resolve.
  destruct H as [-> | ->]; [reflexivity|].
  rewrite orb_true_r. reflexivity.
Qed.

Lemma diff_dir_dirs (w : World) (p1 p2 : Path.t) m1 es1 m2 es2 :
  Fs.walk (fs_root w) p1 = Some (Fs.Dir m1 es1) ->
  Fs.walk (fs_root w) p2 = Some (Fs.Dir m2 es2) ->
  diff_dir w p1 p2 =
    Ok (if Z.eqb (S_IMODE m1) (S_IMODE m2) then DIFF_PASS else DIFF_FAIL,
        Bits (Z.lxor (S_IMODE m1) (S_IMODE m2))).
Proof.
  intros H1 H2. unfold diff_dir, resolve, is_dir, get_perms, lstat.
  rewrite H1, H2. reflexivity.
Qed.

(** [diff_dir] returns, whatever the paths. *)
Lemma diff_dir_total (w : World) (p1 p2 : Path.t) :
  exists o, diff_dir w p1 p2 = Ok o.
Proof.
  destruct (is_dir w p1) eqn:D1; [destruct (is_dir w p2) eqn:D2|];
    try (rewrite diff_dir_not_dir by auto; eauto).
  apply is_dir_walk in D1 as [m1 [es1 H1]].
  apply is_dir_walk in D2 as [m2 [es2 H2]].
  rewrite (diff_dir_dirs _ _ _ _ _ _ _ H1 H2). eauto.
Qed.



(** C10.  The payload of [diff_dir] is an integer in [0, 2^12), and it is
    not zero exactly when the status is [DIFF_FAIL]. *)
Theorem diff_dir_payload_range (w : World) (p1 p2 : Path.t) :
  exists s z,
    diff_dir w p1 p2 = Ok (s, Bits z) /\
    0 <= z < 2 ^ 12 /\
    (z <> 0 <-> s = DIFF_FAIL) /\
    (s = DIFF_PASS \/ s = DIFF_ERR -> z = 0).
Proof.
  assert (forall s z, (z <> 0 <-> s = DIFF_FAIL) ->
                      s = DIFF_PASS \/ s = DIFF_ERR -> z = 0) as Hzero.
  { intros s z Hiff [-> | ->]; destruct (Z.eq_dec z 0) as [|Hz]; auto;
      apply Hiff in Hz; discriminate. }
  destruct (is_dir w p1) eqn:D1; [destruct (is_dir w p2) eqn:D2|].
  - apply is_dir_walk in D1 as [m1 [es1 H1]].
    apply is_dir_walk in D2 as [m2 [es2 H2]].
    rewrite (diff_dir_dirs _ _ _ _ _ _ _ H1 H2).
    do 2 eexists. split; [reflexivity|].
    assert (Z.lxor (S_IMODE m1) (S_IMODE m2) <> 0 <->
            (if S_IMODE m1 =? S_IMODE m2 then DIFF_PASS else DIFF_FAIL)
            = DIFF_FAIL) as Hiff.
    { rewrite Z.lxor_eq_0_iff.
      destruct (Z.eqb_spec (S_IMODE m1) (S_IMODE m2)); split;
        try tauto; discriminate. }
    split; [|split; [exact Hiff | apply Hzero, Hiff]].
    apply lxor_range; [lia | apply S_IMODE_range..].
  - rewrite diff_dir_not_dir by auto. exists DIFF_ERR, 0.
    split; [reflexivity|]. split; [lia|].
    assert (0 <> 0 <-> DIFF_ERR = DIFF_FAIL) as Hiff
        by (split; [congruence | discriminate]).
    split; [exact Hiff | apply Hzero, Hiff].
  - rewrite diff_dir_not_dir by auto. exists DIFF_ERR, 0.
    split; [reflexivity|]. split; [lia|].
    assert (0 <> 0 <-> DIFF_ERR = DIFF_FAIL) as Hiff
        by (split; [congruence | discriminate]).
    split; [exact Hiff | apply Hzero, Hiff].
Qed.

Lemma diff_dir_payload_range_witness :
  exists z,
    diff_dir Sample.w_pipe Sample.expected_out Sample.home_out
    = Ok (DIFF_FAIL, Bits z) /\
    z = octal "011" /\ 0 <= z < 2 ^ 12 /\ z <> 0.
Proof.
  destruct (diff_dir_payload_range Sample.w_pipe Sample.expected_out
                                   Sample.home_out)
    as [s [z [Hrun [Hrange [Hiff _]]]]].
  assert (s = DIFF_FAIL /\ z = octal "011") as [-> ->].
  { vm_compute in Hrun. injection Hrun as <- <-. split; reflexivity. }
  exists (octal "011"). split; [exact Hrun|]. split; [reflexivity|].
  split; [exact Hrange|]. apply Hiff. reflexivity.
Defined.

(** ** The resolvers *)

Module ResolverFacts.
Import Fs FsFacts.

(** Appending inside a loop that filters builds the filtered list. *)
Lemma fold_left_filter_snoc {A B} (keep : A -> bool) (g : A -> B) xs acc :
  fold_left (fun results x => if keep x then results ++ [g x] else results)
            xs acc
  = acc ++ map g (List.filter keep xs).
Proof.
  revert acc; induction xs as [|x xs IH]; intros acc; simpl.
  - rewrite app_nil_r. reflexivity.
  - rewrite IH. destruct (keep x); simpl; [|reflexivity].
    rewrite <- app_assoc. reflexivity.
Qed.

Lemma NoDup_descendants n : wf n = true -> NoDup (descendants [] n).
Proof.
  induction n as [m data | m es IH | m k] using node_induction;
    intros Hwf; try constructor.
  apply wf_Dir in Hwf as [Hnd Hes]. simpl.
  induction es as [|[c child] es IHes]; [constructor|].
  inversion IH as [|? ? Hc IHrest]; subst. simpl in Hc.
  simpl in Hnd. apply NoDup_cons in Hnd as [Hfresh Hnd].
  simpl.
  apply (proj2 (NoDup_app ([c] :: descendants [c] child) _)).
  split; [|split].
  - rewrite descendants_prefix. constructor.
    + intros Hin. apply list_elem_of_In, in_map_iff in Hin as [rest [Heq Hin]].
      apply descendants_nonempty in Hin. destruct rest; [congruence|discriminate].
    + apply NoDup_fmap_2; [intros x y; apply app_inv_head|].
      apply Hc, (Hes c child). left; reflexivity.
  - intros rel Hrel Hin.
    assert (exists rest, rel = c :: rest) as [rest ->].
    { apply list_elem_of_In in Hrel. destruct Hrel as [<- | Hrel]; [eauto|].
      rewrite descendants_prefix in Hrel.
      apply in_map_iff in Hrel as [rest [<- _]]. eauto. }
    apply list_elem_of_In, in_flat_map in Hin as [[c' child'] [Hin' Hrel']].
    apply Hfresh. apply list_elem_of_In, in_map_iff. exists (c', child').
    split; [|exact Hin']. simpl.
    destruct Hrel' as [[= ->] | Hrel']; [reflexivity|].
    rewrite descendants_prefix in Hrel'.
    apply in_map_iff in Hrel' as [? [[= ->] _]]. reflexivity.
  - apply IHes; [exact IHrest | exact Hnd |].
    intros c' n' Hin'. apply Hes. right; exact Hin'.
Qed.

Section Resolvers.

Variable env : RunnerEnv.
Variable w : World.

Lemma find_cio_pairs_eq m es :
  walk (fs_root w) (EXPECTED_CONSOLE env) = Some (Dir m es) ->
  find_cio_pairs env w =
    Ok (map (fun n => (EXPECTED_CONSOLE env ++ [n], OUTPUT_DIR env ++ [n]))
            (List.filter (fun n => negb (String.eqb n (F_STDIN env)))
                         (map fst es))).
Proof.
  intros Hdir. unfold find_cio_pairs, iterdir. rewrite Hdir. simpl. f_equal.
  rewrite (fold_left_filter_snoc
             (fun file => negb (String.eqb (Path.name file) (F_STDIN env)))
             (fun file => (file, Path.joinpath (OUTPUT_DIR env) [Path.name file]))).
  simpl. unfold Path.joinpath. clear Hdir.
  induction es as [|[c child] es IHes]; [reflexivity|]. simpl.
  rewrite PathFacts.name_snoc.
  destruct (String.eqb c (F_STDIN env)); simpl;
    rewrite ?PathFacts.name_snoc, IHes; reflexivity.
Qed.

Lemma find_file_pairs_eq :
  find_file_pairs env w =
    Ok (map (fun rel => (EXPECTED_FILE env ++ rel, HOME_DIR env ++ rel))
            (expected_entries env w)).
Proof.
  unfold find_file_pairs, rglob_all, expected_entries.
  assert (forall rels acc,
    for_each
      (fun results file =>
         part ← Path.relative_to file (EXPECTED_FILE env);
         Ok (results ++ [(file, Path.joinpath (HOME_DIR env) part)]))
      (map (app (EXPECTED_FILE env)) rels) acc
    = Ok (acc ++ map (fun rel => (EXPECTED_FILE env ++ rel, HOME_DIR env ++ rel))
                     rels)) as Hloop.
  { induction rels as [|rel rels IH]; intros acc; simpl.
    - rewrite app_nil_r. reflexivity.
    - rewrite PathFacts.relative_to_join. simpl. rewrite IH.
      rewrite <- app_assoc. reflexivity. }
  destruct (walk (fs_root w) (EXPECTED_FILE env)) as [n|]; [|reflexivity].
  rewrite descendants_prefix. apply Hloop.
Qed.

Lemma expected_entries_complete rel :
  rel <> [] -> is_Some (walk (fs_root w) (EXPECTED_FILE env ++ rel)) ->
  In rel (expected_entries env w).
Proof.
  intros Hne [x Hx]. unfold expected_entries. rewrite walk_app in Hx.
  destruct (walk (fs_root w) (EXPECTED_FILE env)) as [n|]; [|discriminate].
  eapply walk_descendants; eassumption.
Qed.

Lemma World_ok_wf : World_ok w = true -> wf (fs_root w) = true.
Proof. unfold World_ok. destruct (fs_root w); congruence. Qed.

Lemma expected_entries_sound rel :
  World_ok w = true -> In rel (expected_entries env w) ->
  rel <> [] /\ is_Some (walk (fs_root w) (EXPECTED_FILE env ++ rel)) /\
  Forall (fun c => Path.slash_free c = true) rel.
Proof.
  intros Hok Hin. unfold expected_entries in Hin. rewrite walk_app.
  destruct (walk (fs_root w) (EXPECTED_FILE env)) as [n|] eqn:Hn;
    [|contradiction].
  destruct (walk_wf _ _ _ (World_ok_wf Hok) Hn) as [Hwf _].
  split; [eapply descendants_nonempty; eassumption|].
  destruct (descendants_walk n rel Hwf Hin) as [x Hx].
  split; [eauto|]. apply (walk_wf _ _ _ Hwf Hx).
Qed.

Lemma NoDup_expected_entries :
  World_ok w = true -> NoDup (expected_entries env w).
Proof.
  intros Hok. unfold expected_entries.
  destruct (walk (fs_root w) (EXPECTED_FILE env)) as [n|] eqn:Hn;
    [|constructor].
  apply NoDup_descendants. apply (walk_wf _ _ _ (World_ok_wf Hok) Hn).
Qed.

End Resolvers.
End ResolverFacts.

(** ** The aggregator *)

Module AggregatorFacts.
Import Fs FsFacts ResolverFacts.

Section Loops.

Variable env : RunnerEnv.
Variable w : World.

(** *** The loop over the console pairs *)

Lemma collect_cio_stdout console e a :
  Path.name e = F_STDOUT env ->
  collect_cio env w console (e, a)
  = r ← diff w e a; Ok (<["stdout" := r]> console).
Proof.
  intros Hn. unfold collect_cio. rewrite Hn, String.eqb_refl. reflexivity.
Qed.

Lemma collect_cio_stderr console e a :
  Path.name e <> F_STDOUT env -> Path.name e = F_STDERR env ->
  collect_cio env w console (e, a)
  = r ← diff w e a; Ok (<["stderr" := r]> console).
Proof.
  intros Hout Herr. unfold collect_cio.
  apply String.eqb_neq in Hout. rewrite Hout, Herr, String.eqb_refl.
  reflexivity.
Qed.

Lemma collect_cio_unexpected console e a :
  Path.name e <> F_STDOUT env -> Path.name e <> F_STDERR env ->
  collect_cio env w console (e, a)
  = Raise (ValueError "Unexpected console IO comparison").
Proof.
  intros Hout Herr. unfold collect_cio.
  apply String.eqb_neq in Hout, Herr. rewrite Hout, Herr. reflexivity.
Qed.

Lemma name_cases (e : Path.t) :
  Path.name e = F_STDOUT env \/
  (Path.name e <> F_STDOUT env /\ Path.name e = F_STDERR env) \/
  (Path.name e <> F_STDOUT env /\ Path.name e <> F_STDERR env).
Proof.
  destruct (String.eqb_spec (Path.name e) (F_STDOUT env)); [auto|].
  destruct (String.eqb_spec (Path.name e) (F_STDERR env)); auto.
Qed.

(** A step of the loop that returns has stored a comparison. *)
Lemma collect_cio_Ok console e a console' :
  collect_cio env w console (e, a) = Ok console' ->
  exists o,
    diff w e a = Ok o /\
    ((Path.name e = F_STDOUT env /\ console' = <["stdout" := o]> console) \/
     (Path.name e <> F_STDOUT env /\ Path.name e = F_STDERR env /\
      console' = <["stderr" := o]> console)).
Proof.
  destruct (name_cases e) as [Hout | [[Hout Herr] | [Hout Herr]]].
  - rewrite (collect_cio_stdout console e a Hout). intros H.
    apply bind_Ok in H as [o [Ho [= <-]]]. eauto.
  - rewrite (collect_cio_stderr console e a Hout Herr). intros H.
    apply bind_Ok in H as [o [Ho [= <-]]]. eauto 6.
  - rewrite (collect_cio_unexpected console e a Hout Herr). discriminate.
Qed.








(** What the loop stores under a key is the comparison of a pair that
    carries the name of the key. *)
Lemma console_loop_sound pairs : forall console console',
  for_each (collect_cio env w) pairs console = Ok console' ->
  forall key o, console' !! key = Some o ->
    console !! key = Some o \/
    exists e a, In (e, a) pairs /\ diff w e a = Ok o /\
      ((key = "stdout" /\ Path.name e = F_STDOUT env) \/
       (key = "stderr" /\ Path.name e = F_STDERR env)).
Proof.
  induction pairs as [|[e a] pairs IH]; intros console console' Hloop key o Hkey.
  - injection Hloop as <-. auto.
  - destruct (collect_cio env w console (e, a)) as [c1|ex] eqn:Hstep;
      [|rewrite (for_each_cons_Raise _ _ _ _ _ Hstep) in Hloop; discriminate].
    rewrite (for_each_cons_Ok _ _ _ _ _ Hstep) in Hloop.
    destruct (IH c1 console' Hloop key o Hkey)
      as [Hold | [e' [a' [Hin H]]]];
      [|right; exists e', a'; split; [right; exact Hin | exact H]].
    apply collect_cio_Ok in Hstep
      as [o1 [Ho1 [[Hname ->] | [_ [Hname ->]]]]].
    + destruct (decide (key = "stdout")) as [->|Hne].
      * rewrite lookup_insert_eq in Hold. injection Hold as <-.
        right. exists e, a. split; [left; reflexivity | auto].
      * rewrite lookup_insert_ne in Hold by congruence. auto.
    + destruct (decide (key = "stderr")) as [->|Hne].
      * rewrite lookup_insert_eq in Hold. injection Hold as <-.
        right. exists e, a. split; [left; reflexivity | auto].
      * rewrite lookup_insert_ne in Hold by congruence. auto.
Qed.

(** *** The loop over the file pairs *)

(** A step of the loop that returns has stored the comparison of the
    entry, if it is one that is compared. *)
Lemma collect_file_step file rel file' :
  collect_file env w file (file_pair env rel) = Ok file' ->
  file' = match file_entry env w rel with
          | Some o => <[Path.as_posix_rel rel := o]> file
          | None => file
          end /\
  (compared env w rel = true -> is_Some (file_entry env w rel)).
Proof.
  unfold collect_file, file_pair, file_entry, compared.
  rewrite PathFacts.relative_to_join.
  change (Ok rel ≫= ?k) with (k rel). cbv beta.
  destruct (is_file w (EXPECTED_FILE env ++ rel)).
  - destruct (diff w (EXPECTED_FILE env ++ rel) (HOME_DIR env ++ rel))
      as [o|ex]; [|discriminate].
    intros [= <-]. split; [reflexivity | eauto].
  - destruct (is_dir w (EXPECTED_FILE env ++ rel)).
    + destruct (diff_dir w (EXPECTED_FILE env ++ rel) (HOME_DIR env ++ rel))
        as [o|ex]; [|discriminate].
      intros [= <-]. split; [reflexivity | eauto].
    + intros [= <-]. split; [reflexivity | discriminate].
Qed.



(** When the file loop returns, over entries with distinct keys, it has
    stored for each entry its comparison, every comparison it was to make
    has returned, and it has stored nothing else. *)
Lemma file_loop rels : forall file,
  NoDup rels ->
  (forall r r', In r rels -> In r' rels ->
                Path.as_posix_rel r = Path.as_posix_rel r' -> r = r') ->
  for_each (collect_file env w) (map (file_pair env) rels) ∅ = Ok file ->
  (forall rel, In rel rels ->
     file !! Path.as_posix_rel rel = file_entry env w rel /\
     (compared env w rel = true -> is_Some (file_entry env w rel))) /\
  (forall key, (forall rel, In rel rels -> key <> Path.as_posix_rel rel) ->
               file !! key = None).
Proof.
  induction rels as [|r rels IH] using rev_ind; intros file Hnd Hinj Hloop.
  - injection Hloop as <-. split; [contradiction|].
    intros key _. apply lookup_empty.
  - apply NoDup_app in Hnd as [Hnd [Hfresh _]].
    rewrite map_app in Hloop.
    apply for_each_snoc in Hloop as [file0 [Hloop Hstep]].
    destruct (IH file0 Hnd) as [Hin Hout]; [|exact Hloop|].
    { intros a b Ha Hb. apply Hinj; apply in_or_app; auto. }
    assert (forall rel, In rel rels ->
              Path.as_posix_rel rel <> Path.as_posix_rel r) as Hkeys.
    { intros rel Hrel Heq.
      assert (rel = r) as -> by
          (apply Hinj; [apply in_or_app; auto | apply in_or_app; simpl; auto
                       | exact Heq]).
      apply (Hfresh r); [apply list_elem_of_In; exact Hrel | left]. }
    apply collect_file_step in Hstep as [-> Hcompared].
    split.
    + intros rel Hrel. apply in_app_or in Hrel as [Hrel | [<- | []]].
      * split; [|apply (Hin rel Hrel)].
        rewrite <- (proj1 (Hin rel Hrel)).
        destruct (file_entry env w r); [|reflexivity].
        apply lookup_insert_ne. intros Heq. apply (Hkeys rel Hrel).
        symmetry; exact Heq.
      * split; [|exact Hcompared].
        destruct (file_entry env w r); [apply lookup_insert_eq|].
        apply Hout. intros rel Hrel Heq. apply (Hkeys rel Hrel).
        symmetry; exact Heq.
    + intros key Hkey.
      assert (file0 !! key = None) as Hnone.
      { apply Hout. intros rel Hrel. apply Hkey, in_or_app. auto. }
      destruct (file_entry env w r); [|exact Hnone].
      rewrite lookup_insert_ne; [exact Hnone|].
      intros Heq. apply (Hkey r); [apply in_or_app; simpl; auto|].
      symmetry; exact Heq.
Qed.



Lemma expected_keys_inj r r' :
  World_ok w = true ->
  In r (expected_entries env w) -> In r' (expected_entries env w) ->
  Path.as_posix_rel r = Path.as_posix_rel r' -> r = r'.
Proof.
  intros Hok Hr Hr'.
  destruct (expected_entries_sound env w r Hok Hr) as [? [_ ?]].
  destruct (expected_entries_sound env w r' Hok Hr') as [? [_ ?]].
  apply PathFacts.as_posix_rel_inj; assumption.
Qed.

End Loops.
End AggregatorFacts.

(** ** The verdict *)

Section Verdicts.

Import Fs FsFacts ResolverFacts AggregatorFacts.

Variable env : RunnerEnv.
Variable w : World.

(** [collect_result] once the expected console directory is listed. *)
Lemma collect_result_eq self m es :
  walk (fs_root w) (EXPECTED_CONSOLE env) = Some (Dir m es) ->
  collect_result env w self =
    console ← for_each (collect_cio env w)
      (map (fun n => (EXPECTED_CONSOLE env ++ [n], OUTPUT_DIR env ++ [n]))
           (List.filter (fun n => negb (String.eqb n (F_STDIN env)))
                        (map fst es))) ∅;
    file ← for_each (collect_file env w)
      (map (file_pair env) (expected_entries env w)) ∅;
    Ok {| Verdict.console := console;
          Verdict.file := file;
          Verdict.status := status self |}.
Proof.
  intros Hdir. unfold collect_result.
  rewrite (find_cio_pairs_eq env w m es Hdir), find_file_pairs_eq.
  reflexivity.
Qed.

(** A verdict comes out of the two loops. *)
Lemma collect_result_Ok self v :
  collect_result env w self = Ok v ->
  exists pairs,
    find_cio_pairs env w = Ok pairs /\
    for_each (collect_cio env w) pairs ∅ = Ok (Verdict.console v) /\
    for_each (collect_file env w)
      (map (file_pair env) (expected_entries env w)) ∅ = Ok (Verdict.file v) /\
    Verdict.status v = status self.
Proof.
  unfold collect_result. intros H.
  apply bind_Ok in H as [pairs [Hpairs H]].
  apply bind_Ok in H as [console [Hconsole H]].
  rewrite find_file_pairs_eq in H. simpl in H.
  apply bind_Ok in H as [file [Hfile H]].
  injection H as <-. exists pairs. auto.
Qed.

(** What the file mapping of a verdict holds. *)
Lemma collect_result_file_map self v :
  World_ok w = true -> collect_result env w self = Ok v ->
  (forall rel, In rel (expected_entries env w) ->
     Verdict.file v !! Path.as_posix_rel rel = file_entry env w rel) /\
  (forall key,
     (forall rel, In rel (expected_entries env w) ->
                  key <> Path.as_posix_rel rel) ->
     Verdict.file v !! key = None).
Proof.
  intros Hok Hv. apply collect_result_Ok in Hv as [_ [_ [_ [Hfile _]]]].
  destruct (file_loop env w (expected_entries env w) (Verdict.file v))
    as [Hin Hout]; [| |exact Hfile|].
  - apply NoDup_expected_entries, Hok.
  - intros r r'. apply expected_keys_inj, Hok.
  - split; [|exact Hout]. intros rel Hrel. apply (Hin rel Hrel).
Qed.

(** Every comparison that a verdict was to hold, it holds. *)
Lemma collect_result_compared self v rel :
  World_ok w = true -> collect_result env w self = Ok v ->
  In rel (expected_entries env w) -> compared env w rel = true ->
  is_Some (file_entry env w rel).
Proof.
  intros Hok Hv Hrel. apply collect_result_Ok in Hv as [_ [_ [_ [Hfile _]]]].
  destruct (file_loop env w (expected_entries env w) (Verdict.file v))
    as [Hin _]; [| |exact Hfile|].
  - apply NoDup_expected_entries, Hok.
  - intros r r'. apply expected_keys_inj, Hok.
  - apply (Hin rel Hrel).
Qed.

End Verdicts.

(** ** Pairs and console entries *)

Lemma console_names_dec (env : RunnerEnv) (pairs : list (Path.t * Path.t)) :
  (forall e a, In (e, a) pairs ->
     Path.name e = F_STDOUT env \/ Path.name e = F_STDERR env) \/
  (exists e a, In (e, a) pairs /\
     Path.name e <> F_STDOUT env /\ Path.name e <> F_STDERR env).
Proof.
  induction pairs as [|[e a] pairs [IH | [e' [a' [Hin Hbad]]]]].
  - left. contradiction.
  - destruct (AggregatorFacts.name_cases env e) as [H | [[_ H] | H]].
    + left. intros e' a' [[= <- <-] | Hin]; [auto | eauto].
    + left. intros e' a' [[= <- <-] | Hin]; [auto | eauto].
    + right. exists e, a. split; [left; reflexivity | exact H].
  - right. exists e', a'. split; [right; exact Hin | exact Hbad].
Qed.

Lemma in_cio_pairs (env : RunnerEnv) (es : list (string * Fs.node)) e a :
  In (e, a)
     (map (fun n => (EXPECTED_CONSOLE env ++ [n], OUTPUT_DIR env ++ [n]))
          (List.filter (fun n => negb (String.eqb n (F_STDIN env)))
                       (map fst es))) <->
  exists n, In n (map fst es) /\ n <> F_STDIN env /\
            e = EXPECTED_CONSOLE env ++ [n] /\
            a = Path.joinpath (OUTPUT_DIR env) [n].
Proof.
  rewrite in_map_iff. unfold Path.joinpath. split.
  - intros [n [[= <- <-] Hn]]. apply filter_In in Hn as [Hin Hne].
    apply negb_true_iff, String.eqb_neq in Hne. eauto.
  - intros [n [Hin [Hne [-> ->]]]]. exists n. split; [reflexivity|].
    apply filter_In. split; [exact Hin|].
    apply negb_true_iff, String.eqb_neq, Hne.
Qed.

(** C6.  With the expected console directory listing the entries [es], the
    console pairs are, in the order of the listing, the pairs
    [(expected, OUTPUT_DIR / name)] of the entries whose name is not
    [F_STDIN]; an entry named [F_STDIN] is in no pair, and every entry of
    the console mapping of a verdict is the comparison of such a pair. *)
Theorem find_cio_pairs_excludes_stdin
        (env : RunnerEnv) (w : World) (m : Z) (es : list (string * Fs.node)) :
  Fs.walk (fs_root w) (EXPECTED_CONSOLE env) = Some (Fs.Dir m es) ->
  exists pairs,
    find_cio_pairs env w = Ok pairs /\
    pairs = map (fun n => (EXPECTED_CONSOLE env ++ [n],
                           Path.joinpath (OUTPUT_DIR env) [n]))
                (List.filter (fun n => negb (String.eqb n (F_STDIN env)))
                             (map fst es)) /\
    (forall e a, In (e, a) pairs <->
       exists n, In n (map fst es) /\ n <> F_STDIN env /\
                 e = EXPECTED_CONSOLE env ++ [n] /\
                 a = Path.joinpath (OUTPUT_DIR env) [n]) /\
    (forall e a, In (e, a) pairs -> Path.name e <> F_STDIN env) /\
    (forall self v key o,
       collect_result env w self = Ok v ->
       Verdict.console v !! key = Some o ->
       exists n, In n (map fst es) /\ n <> F_STDIN env /\
         diff w (EXPECTED_CONSOLE env ++ [n])
                (Path.joinpath (OUTPUT_DIR env) [n]) = Ok o /\
         ((key = "stdout" /\ n = F_STDOUT env) \/
          (key = "stderr" /\ n = F_STDERR env))).
Proof.
  intros Hdir. eexists. split; [apply (ResolverFacts.find_cio_pairs_eq env w m es Hdir)|].
  split; [reflexivity|]. split; [apply in_cio_pairs|]. split.
  - intros e a Hin. apply in_cio_pairs in Hin as [n [_ [Hne [-> _]]]].
    rewrite PathFacts.name_snoc. exact Hne.
  - intros self v key o Hv Hkey.
    apply collect_result_Ok in Hv as [pairs [Hpairs [Hloop _]]].
    rewrite (ResolverFacts.find_cio_pairs_eq env w m es Hdir) in Hpairs.
    injection Hpairs as <-.
    destruct (AggregatorFacts.console_loop_sound env w _ _ _ Hloop key o Hkey)
      as [Hempty | [e [a [Hin [Ho Hname]]]]].
    + rewrite lookup_empty in Hempty. discriminate.
    + apply in_cio_pairs in Hin as [n [Hin [Hne [-> ->]]]].
      rewrite PathFacts.name_snoc in Hname. exists n. auto.
Qed.

Lemma find_cio_pairs_excludes_stdin_witness :
  Fs.walk (fs_root Sample.w_pipe) (EXPECTED_CONSOLE Sample.env)
  = Some (Sample.dir "755" [("stdin", Sample.reg "2 3");
                            ("stdout", Sample.reg Sample.five)]) /\
  find_cio_pairs Sample.env Sample.w_pipe
  = Ok [(["judge"; "expected"; "console"; "stdout"],
         ["judge"; "output"; "stdout"])].
Proof.
  split; [reflexivity|].
  destruct (find_cio_pairs_excludes_stdin Sample.env Sample.w_pipe _ _ eq_refl)
    as [pairs [Hpairs [-> _]]].
  exact Hpairs.
Defined.

(** C7.  The file pairs are found without an exception; every entry below
    the expected-file root, at whatever depth, has its pair
    [(expected, HOME_DIR / relative path)], and in a well-formed filesystem
    there is no other pair and no pair twice. *)
Theorem find_file_pairs_every_entry (env : RunnerEnv) (w : World) :
  exists pairs,
    find_file_pairs env w = Ok pairs /\
    (forall rel,
       rel <> [] ->
       is_Some (Fs.walk (fs_root w) (EXPECTED_FILE env ++ rel)) ->
       In (EXPECTED_FILE env ++ rel, Path.joinpath (HOME_DIR env) rel) pairs) /\
    (World_ok w = true ->
     NoDup pairs /\
     forall e a, In (e, a) pairs ->
       exists rel,
         rel <> [] /\ is_Some (Fs.walk (fs_root w) e) /\
         Path.relative_to e (EXPECTED_FILE env) = Ok rel /\
         e = EXPECTED_FILE env ++ rel /\
         a = Path.joinpath (HOME_DIR env) rel).
Proof.
  eexists. split; [apply ResolverFacts.find_file_pairs_eq|]. split.
  - intros rel Hne Hsome. apply in_map_iff. exists rel.
    split; [reflexivity|].
    apply ResolverFacts.expected_entries_complete; assumption.
  - intros Hok. split.
    + assert (Inj eq eq (file_pair env)) as Hinj.
      { intros r r' [= Heq _]. apply app_inv_head in Heq. exact Heq. }
      apply (NoDup_fmap_2 (file_pair env)).
      apply ResolverFacts.NoDup_expected_entries, Hok.
    + intros e a Hin. apply in_map_iff in Hin as [rel [[= <- <-] Hin]].
      destruct (ResolverFacts.expected_entries_sound env w rel Hok Hin)
        as [Hne [Hsome _]].
      exists rel. rewrite PathFacts.relative_to_join. auto.
Qed.

Lemma find_file_pairs_every_entry_witness :
  World_ok Sample.w_pipe = true /\
  find_file_pairs Sample.env Sample.w_pipe
  = Ok [(["judge"; "expected"; "file"; "out"], ["home"; "user"; "out"]);
        (["judge"; "expected"; "file"; "out"; "a.txt"],
         ["home"; "user"; "out"; "a.txt"]);
        (["judge"; "expected"; "file"; "out"; "pipe"],
         ["home"; "user"; "out"; "pipe"])] /\
  exists pairs,
    find_file_pairs Sample.env Sample.w_pipe = Ok pairs /\ NoDup pairs /\
    In (["judge"; "expected"; "file"; "out"; "a.txt"],
        ["home"; "user"; "out"; "a.txt"]) pairs.
Proof.
  split; [reflexivity|]. split; [reflexivity|].
  destruct (find_file_pairs_every_entry Sample.env Sample.w_pipe)
    as [pairs [Hpairs [Hin Hok]]].
  exists pairs. split; [exact Hpairs|]. split.
  - apply (Hok eq_refl).
  - apply (Hin ["out"; "a.txt"]); [discriminate|]. eexists. reflexivity.
Defined.



(** ** Entries of the file mapping *)

Lemma in_expected_entries (env : RunnerEnv) (w : World) rel n :
  rel <> [] ->
  Fs.walk (fs_root w) (EXPECTED_FILE env ++ rel) = Some n ->
  In rel (expected_entries env w).
Proof.
  intros Hne Hn. apply ResolverFacts.expected_entries_complete; eauto.
Qed.

(** Every regular file and every directory below the expected-file root
    has its entry, under its relative path, and the mapping has no other
    key. *)
Lemma collect_result_file_complete
      (env : RunnerEnv) (w : World) (self : CheckerBase) (v : Verdict.t) :
  World_ok w = true -> collect_result env w self = Ok v ->
  (forall rel m data,
     rel <> [] ->
     Fs.walk (fs_root w) (EXPECTED_FILE env ++ rel) = Some (Fs.File m data) ->
     exists o, diff w (EXPECTED_FILE env ++ rel) (HOME_DIR env ++ rel) = Ok o /\
               Verdict.file v !! Path.as_posix_rel rel = Some o) /\
  (forall rel m es,
     rel <> [] ->
     Fs.walk (fs_root w) (EXPECTED_FILE env ++ rel) = Some (Fs.Dir m es) ->
     exists o, diff_dir w (EXPECTED_FILE env ++ rel) (HOME_DIR env ++ rel) = Ok o /\
               Verdict.file v !! Path.as_posix_rel rel = Some o) /\
  (forall key, is_Some (Verdict.file v !! key) ->
     exists rel, In rel (expected_entries env w) /\
                 key = Path.as_posix_rel rel).
Proof.
  intros Hok Hv.
  destruct (collect_result_file_map env w self v Hok Hv) as [Hin Hout].
  split; [|split].
  - intros rel m data Hne Hrel.
    pose proof (in_expected_entries env w rel _ Hne Hrel) as Hentry.
    rewrite (Hin rel Hentry).
    destruct (collect_result_compared env w self v rel Hok Hv Hentry)
      as [o Ho]; [unfold compared, is_file; rewrite Hrel; reflexivity|].
    revert Ho. unfold file_entry, is_file. rewrite Hrel.
    destruct (diff w (EXPECTED_FILE env ++ rel) (HOME_DIR env ++ rel))
      as [o'|ex]; [|discriminate].
    intros [= <-]. eauto.
  - intros rel m es Hne Hrel.
    rewrite (Hin rel (in_expected_entries env w rel _ Hne Hrel)).
    unfold file_entry, is_file, is_dir. rewrite Hrel.
    destruct (diff_dir_total w (EXPECTED_FILE env ++ rel) (HOME_DIR env ++ rel))
      as [o Ho]. rewrite Ho. eauto.
  - intros key [o Hkey].
    destruct (decide (Exists (fun rel => key = Path.as_posix_rel rel)
                             (expected_entries env w))) as [Hex | Hnone].
    + apply Exists_exists in Hex as [rel [Hrel ->]].
      exists rel. split; [apply list_elem_of_In, Hrel | reflexivity].
    + rewrite Hout in Hkey; [discriminate|].
      intros rel Hrel ->. apply Hnone, Exists_exists.
      exists rel. split; [apply list_elem_of_In, Hrel | reflexivity].
Qed.

(** C1, where the code departs from it.  An entry below the expected-file
    root that is neither a regular file nor a directory has no entry in the
    file mapping: the loop of [collect_result] has a branch for files and a
    branch for directories, and no other. *)
Theorem collect_result_omits_special
        (env : RunnerEnv) (w : World) (self : CheckerBase) (v : Verdict.t)
        (rel : Path.t) (m : Z) (k : Fs.special) :
  World_ok w = true ->
  collect_result env w self = Ok v ->
  rel <> [] ->
  Fs.walk (fs_root w) (EXPECTED_FILE env ++ rel) = Some (Fs.Special m k) ->
  Verdict.file v !! Path.as_posix_rel rel = None.
Proof.
  intros Hok Hv Hne Hrel.
  destruct (collect_result_file_map env w self v Hok Hv) as [Hin _].
  rewrite (Hin rel (in_expected_entries env w rel _ Hne Hrel)).
  unfold file_entry, is_file, is_dir. rewrite Hrel. reflexivity.
Qed.

Lemma collect_result_omits_special_witness :
  exists v,
    collect_result Sample.env Sample.w_pipe Sample.checker = Ok v /\
    Fs.walk (fs_root Sample.w_pipe) ["judge"; "expected"; "file"; "out"; "pipe"]
    = Some Sample.fifo /\
    Verdict.file v !! "out/pipe" = None /\
    Verdict.file v !! "out/a.txt" = Some (DIFF_ERR, Text "") /\
    Verdict.file v !! "out" = Some (DIFF_FAIL, Bits (octal "011")).
Proof.
  destruct (collect_result Sample.env Sample.w_pipe Sample.checker)
    as [v|e] eqn:Hv; [|vm_compute in Hv; discriminate].
  exists v. split; [reflexivity|]. split; [reflexivity|]. split.
  - apply (collect_result_omits_special Sample.env Sample.w_pipe Sample.checker
             v ["out"; "pipe"] (octal "10644") Fs.Fifo);
      [reflexivity | exact Hv | discriminate | reflexivity].
  - vm_compute in Hv. injection Hv as <-. split; reflexivity.
Defined.



(** ** Determinism

    Two worlds that agree on the paths the checker touches give the same
    verdict. *)

Lemma for_each_ext {A S} (body1 body2 : S -> A -> Exc S) xs : forall s,
  (forall s x, In x xs -> body1 s x = body2 s x) ->
  for_each body1 xs s = for_each body2 xs s.
Proof.
  induction xs as [|x xs IH]; intros s Hext; simpl; [reflexivity|].
  rewrite (Hext s x) by (left; reflexivity).
  destruct (body2 s x) as [s'|e]; simpl; [|reflexivity].
  apply IH. intros s'' y Hy. apply Hext. right; exact Hy.
Qed.

Section Agreement.

Variable env : RunnerEnv.
Variables w1 w2 : World.

(** The paths on which the two worlds are known to agree: they include
    the four roots and everything below them. *)
Variable touched : Path.t -> Prop.

Hypothesis touched_console : forall rel, touched (EXPECTED_CONSOLE env ++ rel).
Hypothesis touched_output : forall rel, touched (OUTPUT_DIR env ++ rel).
Hypothesis touched_file : forall rel, touched (EXPECTED_FILE env ++ rel).
Hypothesis touched_home : forall rel, touched (HOME_DIR env ++ rel).

Hypothesis same_walk : forall p,
  touched p -> Fs.walk (fs_root w1) p = Fs.walk (fs_root w2) p.
Hypothesis same_console :
  is_Some (Fs.walk (fs_root w1) (EXPECTED_CONSOLE env)) \/
  Fs.walk_error (fs_root w1) (EXPECTED_CONSOLE env)
  = Fs.walk_error (fs_root w2) (EXPECTED_CONSOLE env).
Hypothesis same_stat : forall p,
  touched p -> is_file w1 p = true ->
  Diffutils.stat_file w1 (Path.as_posix p)
  = Diffutils.stat_file w2 (Path.as_posix p).
Hypothesis same_io : forall a, io_error w1 a = io_error w2 a.
Hypothesis same_listing : forall a b da db,
  diff_listing w1 a b da db = diff_listing w2 a b da db.

Lemma is_file_agree p : touched p -> is_file w1 p = is_file w2 p.
Proof. intros Hp. unfold is_file. rewrite (same_walk p Hp). reflexivity. Qed.

Lemma is_dir_agree p : touched p -> is_dir w1 p = is_dir w2 p.
Proof. intros Hp. unfold is_dir. rewrite (same_walk p Hp). reflexivity. Qed.

Lemma diff_agree p1 p2 :
  touched p1 -> touched p2 -> diff w1 p1 p2 = diff w2 p1 p2.
Proof.
  intros T1 T2.
  destruct (is_file w1 p1) eqn:F1; [destruct (is_file w1 p2) eqn:F2|].
  - rewrite (diff_regular w1 p1 p2 F1 F2).
    rewrite (diff_regular w2 p1 p2)
      by (rewrite <- is_file_agree by assumption; assumption).
    assert (Diffutils.compare_files w1 DIFF_options
              (Path.as_posix p1) (Path.as_posix p2)
            = Diffutils.compare_files w2 DIFF_options
                (Path.as_posix p1) (Path.as_posix p2)) as ->; [|reflexivity].
    unfold Diffutils.compare_files, Diffutils.unreadable.
    rewrite <- (same_stat p1 T1 F1), <- (same_stat p2 T2 F2).
    rewrite <- !same_io.
    destruct (Diffutils.stat_file w1 (Path.as_posix p1)) as [d1|];
      [|reflexivity].
    destruct (Diffutils.stat_file w1 (Path.as_posix p2)) as [d2|];
      [|reflexivity].
    rewrite same_listing. reflexivity.
  - rewrite !diff_not_regular;
      [reflexivity | right; rewrite <- is_file_agree by assumption | right];
      assumption.
  - rewrite !diff_not_regular;
      [reflexivity | left; rewrite <- is_file_agree by assumption | left];
      assumption.
Qed.

Lemma diff_dir_agree p1 p2 :
  touched p1 -> touched p2 -> diff_dir w1 p1 p2 = diff_dir w2 p1 p2.
Proof.
  intros T1 T2. unfold diff_dir, resolve.
  rewrite <- (is_dir_agree p1 T1), <- (is_dir_agree p2 T2).
  destruct (is_dir w1 p1) eqn:D1; [|reflexivity].
  destruct (is_dir w1 p2) eqn:D2; [|reflexivity].
  unfold is_dir in D1, D2. unfold get_perms, lstat.
  rewrite <- (same_walk p1 T1), <- (same_walk p2 T2).
  destruct (Fs.walk (fs_root w1) p1); [|discriminate].
  destruct (Fs.walk (fs_root w1) p2); [|discriminate].
  reflexivity.
Qed.

Lemma find_cio_pairs_agree : find_cio_pairs env w1 = find_cio_pairs env w2.
Proof.
  unfold find_cio_pairs, iterdir.
  pose proof (same_walk _ (touched_console [])) as Hroot.
  rewrite app_nil_r in Hroot. rewrite <- Hroot.
  destruct (Fs.walk (fs_root w1) (EXPECTED_CONSOLE env)) as [n|] eqn:Hn;
    [reflexivity|].
  destruct same_console as [[n Habs] | ->]; [discriminate | reflexivity].
Qed.

Lemma find_file_pairs_agree : find_file_pairs env w1 = find_file_pairs env w2.
Proof.
  unfold find_file_pairs, rglob_all.
  pose proof (same_walk _ (touched_file [])) as Hroot.
  rewrite app_nil_r in Hroot. rewrite Hroot. reflexivity.
Qed.

Lemma collect_cio_agree console e a :
  touched e -> touched a ->
  collect_cio env w1 console (e, a) = collect_cio env w2 console (e, a).
Proof.
  intros Te Ta. unfold collect_cio. rewrite (diff_agree e a Te Ta). reflexivity.
Qed.

Lemma collect_file_agree file e a :
  touched e -> touched a ->
  collect_file env w1 file (e, a) = collect_file env w2 file (e, a).
Proof.
  intros Te Ta. unfold collect_file.
  rewrite (diff_agree e a Te Ta), (diff_dir_agree e a Te Ta),
    (is_file_agree e Te), (is_dir_agree e Te).
  reflexivity.
Qed.

(** The console pairs lie below the two console roots. *)
Lemma cio_pairs_touched pairs e a :
  find_cio_pairs env w2 = Ok pairs -> In (e, a) pairs -> touched e /\ touched a.
Proof.
  unfold find_cio_pairs, iterdir. intros Hpairs Hin.
  destruct (Fs.walk (fs_root w2) (EXPECTED_CONSOLE env)) as [[|m es|m []]|];
    try discriminate.
  simpl in Hpairs. injection Hpairs as <-.
  rewrite (ResolverFacts.fold_left_filter_snoc
             (fun file => negb (String.eqb (Path.name file) (F_STDIN env)))
             (fun file => (file, Path.joinpath (OUTPUT_DIR env) [Path.name file])))
    in Hin.
  simpl in Hin. apply in_map_iff in Hin as [file [[= <- <-] Hfile]].
  apply filter_In in Hfile as [Hfile _].
  apply in_map_iff in Hfile as [[c child] [<- _]].
  split; [apply touched_console | apply touched_output].
Qed.

Lemma collect_result_agree (self1 self2 : CheckerBase) :
  status self1 = status self2 ->
  collect_result env w1 self1 = collect_result env w2 self2.
Proof.
  intros Hstatus. unfold collect_result.
  rewrite find_cio_pairs_agree, find_file_pairs_agree, Hstatus.
  destruct (find_cio_pairs env w2) as [pairs|e] eqn:Hpairs; [|reflexivity].
  simpl.
  rewrite (for_each_ext (collect_cio env w1) (collect_cio env w2) pairs).
  2: { intros console [e a] Hin.
       destruct (cio_pairs_touched pairs e a Hpairs Hin).
       apply collect_cio_agree; assumption. }
  destruct (for_each (collect_cio env w2) pairs ∅) as [console|e];
    [|reflexivity].
  simpl. rewrite ResolverFacts.find_file_pairs_eq. simpl.
  rewrite (for_each_ext (collect_file env w1) (collect_file env w2)).
  2: { intros file [e a] Hin. apply in_map_iff in Hin as [rel [[= <- <-] _]].
       apply collect_file_agree; [apply touched_file | apply touched_home]. }
  reflexivity.
Qed.

End Agreement.

Lemma stat_file_ext (w1 w2 : World) (a : string) :
  fs_root w1 = fs_root w2 ->
  Diffutils.stat_file w1 a = Diffutils.stat_file w2 a.
Proof.
  intros Hroot. unfold Diffutils.stat_file. rewrite Hroot. reflexivity.
Qed.

(** Without its console directory [collect_result] leaves with the
    exception of [iterdir]. *)
Lemma collect_result_no_console
      (env : RunnerEnv) (w : World) (self : CheckerBase) :
  Fs.walk (fs_root w) (EXPECTED_CONSOLE env) = None ->
  collect_result env w self
  = Raise (Fs.walk_error (fs_root w) (EXPECTED_CONSOLE env)).
Proof.
  intros Hnone. unfold collect_result, find_cio_pairs, iterdir.
  rewrite Hnone. reflexivity.
Qed.

(** C9.  The verdict is a function of the filesystem state, of what diff
    does with the files, and of the stored status: two evaluations over
    the same filesystem with the same status return the same verdict, or
    raise the same exception, whatever the other fields of the checker.
    In well-formed filesystems whose four roots hold the same trees the
    two evaluations return the same verdict or both return none; they
    also raise the same exception when the expected console root exists,
    or is missing in both for the same reason (what [iterdir] raises on a
    missing root depends on the directories above it). *)
Theorem collect_result_deterministic
        (env : RunnerEnv) (w1 w2 : World) (self1 self2 : CheckerBase) :
  (forall a, io_error w1 a = io_error w2 a) ->
  (forall a b da db, diff_listing w1 a b da db = diff_listing w2 a b da db) ->
  status self1 = status self2 ->
  (fs_root w1 = fs_root w2 ->
   collect_result env w1 self1 = collect_result env w2 self2) /\
  (World_ok w1 = true -> World_ok w2 = true ->
   (forall root,
      In root [EXPECTED_CONSOLE env; OUTPUT_DIR env;
               EXPECTED_FILE env; HOME_DIR env] ->
      Fs.walk (fs_root w1) root = Fs.walk (fs_root w2) root) ->
   to_option (collect_result env w1 self1)
   = to_option (collect_result env w2 self2) /\
   (is_Some (Fs.walk (fs_root w1) (EXPECTED_CONSOLE env)) \/
    Fs.walk_error (fs_root w1) (EXPECTED_CONSOLE env)
    = Fs.walk_error (fs_root w2) (EXPECTED_CONSOLE env) ->
    collect_result env w1 self1 = collect_result env w2 self2)).
Proof.
  intros Hio Hlisting Hstatus. split.
  - intros Hroot.
    apply (collect_result_agree env w1 w2 (fun _ => True)); auto.
    + intros p _. rewrite Hroot. reflexivity.
    + right. rewrite Hroot. reflexivity.
    + intros p _ _. apply stat_file_ext, Hroot.
  - intros Hok1 Hok2 Hroots.
    assert (is_Some (Fs.walk (fs_root w1) (EXPECTED_CONSOLE env)) \/
            Fs.walk_error (fs_root w1) (EXPECTED_CONSOLE env)
            = Fs.walk_error (fs_root w2) (EXPECTED_CONSOLE env) ->
            collect_result env w1 self1 = collect_result env w2 self2)
      as Hagree.
    { intros Hconsole.
      apply (collect_result_agree env w1 w2
               (fun p => exists root rel,
                    In root [EXPECTED_CONSOLE env; OUTPUT_DIR env;
                             EXPECTED_FILE env; HOME_DIR env] /\
                    p = root ++ rel)); auto.
      + intros rel. exists (EXPECTED_CONSOLE env), rel. simpl. auto.
      + intros rel. exists (OUTPUT_DIR env), rel. simpl. auto.
      + intros rel. exists (EXPECTED_FILE env), rel. simpl. auto.
      + intros rel. exists (HOME_DIR env), rel. simpl. auto 6.
      + intros p [root [rel [Hin ->]]].
        rewrite !FsFacts.walk_app, (Hroots root Hin). reflexivity.
      + intros p [root [rel [Hin ->]]] Hfile.
        apply is_file_walk in Hfile as [m [data H1]].
        assert (Fs.walk (fs_root w2) (root ++ rel) = Some (Fs.File m data))
          as H2.
        { rewrite FsFacts.walk_app, <- (Hroots root Hin), <- FsFacts.walk_app.
          exact H1. }
        rewrite (stat_file_regular w1 _ _ _ Hok1 H1).
        rewrite (stat_file_regular w2 _ _ _ Hok2 H2).
        reflexivity. }
    split; [|exact Hagree].
    destruct (Fs.walk (fs_root w1) (EXPECTED_CONSOLE env)) as [n|] eqn:Hn.
    + rewrite Hagree; [reflexivity | left; eauto].
    + rewrite (collect_result_no_console env w1 self1 Hn).
      rewrite (collect_result_no_console env w2 self2); [reflexivity|].
      rewrite <- (Hroots (EXPECTED_CONSOLE env)); [exact Hn | left; reflexivity].
Qed.

Lemma collect_result_deterministic_witness :
  status Sample.checker = status Sample.checker_other /\
  fs_root Sample.w_pipe <> fs_root Sample.w_pipe_elsewhere /\
  collect_result Sample.env Sample.w_pipe Sample.checker
  = collect_result Sample.env Sample.w_pipe Sample.checker_other /\
  collect_result Sample.env Sample.w_pipe Sample.checker
  = collect_result Sample.env Sample.w_pipe_elsewhere Sample.checker_other.
Proof.
  split; [reflexivity|]. split; [discriminate|]. split.
  - apply (proj1 (collect_result_deterministic
             Sample.env Sample.w_pipe Sample.w_pipe
             Sample.checker Sample.checker_other
             (fun _ => eq_refl) (fun _ _ _ _ => eq_refl) eq_refl)).
    reflexivity.
  - assert (forall root,
              In root [EXPECTED_CONSOLE Sample.env; OUTPUT_DIR Sample.env;
                       EXPECTED_FILE Sample.env; HOME_DIR Sample.env] ->
              Fs.walk (fs_root Sample.w_pipe) root
              = Fs.walk (fs_root Sample.w_pipe_elsewhere) root) as Hroots
      by (intros root [<- | [<- | [<- | [<- | []]]]]; reflexivity).
    apply (proj2 (proj2 (collect_result_deterministic
             Sample.env Sample.w_pipe Sample.w_pipe_elsewhere
             Sample.checker Sample.checker_other
             (fun _ => eq_refl) (fun _ _ _ _ => eq_refl) eq_refl)
             eq_refl eq_refl Hroots)).
    left. eexists. reflexivity.
Defined.

(** The trees at the four roots do not fix the exception: in neither of
    these two filesystems does any of the roots exist, in the first because
    [/judge] is missing, in the second because [/judge/expected] is a
    regular file. *)
Example collect_result_missing_roots :
  World_ok Cases.w_bare = true /\ World_ok Cases.w_below_file = true /\
  (forall root,
     In root [EXPECTED_CONSOLE Sample.env; OUTPUT_DIR Sample.env;
              EXPECTED_FILE Sample.env; HOME_DIR Sample.env] ->
     Fs.walk (fs_root Cases.w_bare) root = None /\
     Fs.walk (fs_root Cases.w_below_file) root = None) /\
  collect_result Sample.env Cases.w_bare Sample.checker
  = Raise FileNotFoundError /\
  collect_result Sample.env Cases.w_below_file Sample.checker
  = Raise NotADirectoryError.
Proof.
  split; [reflexivity|]. split; [reflexivity|]. split.
  - intros root [<- | [<- | [<- | [<- | []]]]]; split; reflexivity.
  - split; reflexivity.
Qed.

(** * Further properties of the code *)

(** ** [get_perms] *)

(** The error of a path that leaves the tree below an entry that is
    found is the error of the rest of the path at that entry. *)
Lemma walk_error_app (n n' : Fs.node) (q r : Path.t) :
  Fs.walk n q = Some n' ->
  Fs.walk_error n (q ++ r) = Fs.walk_error n' r.
Proof.
  revert n; induction q as [|c q IH]; intros n Hq.
  - injection Hq as ->. reflexivity.
  - destruct n as [| m es |]; try discriminate.
    cbn [Fs.walk] in Hq. cbn [app Fs.walk_error].
    destruct (Fs.assoc c es) as [n1|]; [exact (IH n1 Hq) | discriminate].
Qed.


(** X1.  [get_perms] reads any existing entry, whatever its kind, and
    returns its mode reduced modulo 2^12, a number in [0, 2^12) that
    further masking leaves alone.  On a path that leaves the tree at the
    name [c] below the entry at [q] it raises the error of [lstat]:
    [FileNotFoundError] when [q] is a directory without the name [c] or a
    dangling link, [NotADirectoryError] when [q] is a regular file or
    another entry that is no directory. *)
Theorem get_perms_spec (w : World) (p : Path.t) :
  (forall n, Fs.walk (fs_root w) p = Some n ->
     get_perms w p = Ok (Fs.st_mode_of n mod 2 ^ 12) /\
     0 <= Fs.st_mode_of n mod 2 ^ 12 < 2 ^ 12 /\
     S_IMODE (Fs.st_mode_of n mod 2 ^ 12) = Fs.st_mode_of n mod 2 ^ 12) /\
  (forall q c rest, p = q ++ c :: rest ->
     (forall m es,
        Fs.walk (fs_root w) q = Some (Fs.Dir m es) -> Fs.assoc c es = None ->
        get_perms w p = Raise FileNotFoundError) /\
     (forall m data,
        Fs.walk (fs_root w) q = Some (Fs.File m data) ->
        get_perms w p = Raise NotADirectoryError) /\
     (forall m k,
        Fs.walk (fs_root w) q = Some (Fs.Special m k) ->
        get_perms w p = Raise (match k with
                               | Fs.DanglingLink => FileNotFoundError
                               | _ => NotADirectoryError
                               end))) /\
  (Fs.walk (fs_root w) p = None ->
   exists q c rest n,
     p = q ++ c :: rest /\ Fs.walk (fs_root w) q = Some n /\
     Fs.walk n [c] = None).
Proof.
  split; [|split].
  - unfold get_perms, lstat. intros n ->. simpl.
    assert (S_IMODE (Fs.st_mode_of n) = Fs.st_mode_of n mod 2 ^ 12) as Hmod
      by (rewrite S_IMODE_low12; apply Z.land_ones; lia).
    rewrite Hmod. split; [reflexivity|].
    split; [apply Z.mod_pos_bound; lia|].
    rewrite S_IMODE_low12, Z.land_ones by lia. apply Z.mod_mod. lia.
  - intros q c rest ->.
    assert (forall n e,
              Fs.walk (fs_root w) q = Some n -> Fs.walk n [c] = None ->
              Fs.walk_error n (c :: rest) = e ->
              get_perms w (q ++ c :: rest) = Raise e) as Hraise.
    { intros n e Hq Hc <-. unfold get_perms, lstat.
      rewrite FsFacts.walk_app, Hq.
      assert (Fs.walk n (c :: rest) = None) as ->.
      { change (c :: rest) with ([c] ++ rest).
        rewrite FsFacts.walk_app, Hc. reflexivity. }
      rewrite (walk_error_app _ _ _ _ Hq). reflexivity. }
    split; [|split].
    + intros m es Hq Hc. apply (Hraise _ _ Hq); cbn; rewrite Hc; reflexivity.
    + intros m data Hq. apply (Hraise _ _ Hq); reflexivity.
    + intros m k Hq. apply (Hraise _ _ Hq); [reflexivity|].
      destruct k; reflexivity.
  - generalize (fs_root w). induction p as [|c p IH]; intros n Hp;
      [discriminate|].
    destruct (Fs.walk n [c]) as [n1|] eqn:Hc.
    + assert (Fs.walk n1 p = None) as Hrest.
      { change (c :: p) with ([c] ++ p) in Hp.
        rewrite FsFacts.walk_app, Hc in Hp. exact Hp. }
      destruct (IH n1 Hrest) as [q [c' [rest [n' [-> [Hq Hc']]]]]].
      exists (c :: q), c', rest, n'. split; [reflexivity|].
      split; [|exact Hc'].
      change (c :: q) with ([c] ++ q). rewrite FsFacts.walk_app, Hc.
      exact Hq.
    + exists [], c, p, n. auto.
Qed.

Lemma get_perms_spec_witness :
  get_perms Sample.w_pipe (Sample.expected_out ++ ["pipe"]) = Ok (octal "644") /\
  get_perms Sample.w_pipe (Sample.home_out ++ ["a.txt"])
  = Raise FileNotFoundError /\
  get_perms Cases.w_below_file (EXPECTED_CONSOLE Sample.env)
  = Raise NotADirectoryError /\
  get_perms Sample.w_pipe (Sample.expected_out ++ ["pipe"; "x"])
  = Raise NotADirectoryError.
Proof.
  split; [|split; [|split]].
  - destruct (get_perms_spec Sample.w_pipe (Sample.expected_out ++ ["pipe"]))
      as [H _].
    destruct (H Sample.fifo eq_refl) as [Hrun _]. exact Hrun.
  - destruct (get_perms_spec Sample.w_pipe (Sample.home_out ++ ["a.txt"]))
      as [_ [H _]].
    destruct (H Sample.home_out "a.txt" [] eq_refl) as [Hdir _].
    eapply Hdir; [cbv; reflexivity | reflexivity].
  - destruct (get_perms_spec Cases.w_below_file (EXPECTED_CONSOLE Sample.env))
      as [_ [H _]].
    destruct (H ["judge"; "expected"] "console" [] eq_refl) as [_ [Hfile _]].
    apply (Hfile (octal "100644") ""). reflexivity.
  - destruct (get_perms_spec Sample.w_pipe
                (Sample.expected_out ++ ["pipe"; "x"])) as [_ [H _]].
    destruct (H (Sample.expected_out ++ ["pipe"]) "x" [] eq_refl)
      as [_ [_ Hspecial]].
    apply (Hspecial (octal "10644") Fs.Fifo). reflexivity.
Defined.

(** ** [diff_dir] *)

(** X2.  The comparison of permissions is symmetric: swapping the two
    paths gives the same status and the same payload. *)
Theorem diff_dir_symmetric (w : World) (p1 p2 : Path.t) :
  diff_dir w p1 p2 = diff_dir w p2 p1.
Proof.
  destruct (is_dir w p1) eqn:D1; [destruct (is_dir w p2) eqn:D2|].
  - apply is_dir_walk in D1 as [m1 [es1 H1]].
    apply is_dir_walk in D2 as [m2 [es2 H2]].
    rewrite (diff_dir_dirs _ _ _ _ _ _ _ H1 H2),
      (diff_dir_dirs _ _ _ _ _ _ _ H2 H1).
    rewrite Z.eqb_sym, Z.lxor_comm. reflexivity.
  - rewrite !diff_dir_not_dir by auto. reflexivity.
  - rewrite !diff_dir_not_dir by auto. reflexivity.
Qed.

(** X3.  For two directories the payload tells the permissions apart bit
    by bit: bit [i] of the payload is set exactly when the two modes
    differ at bit [i], for [i] below 12, and no higher bit is set; so the
    permissions of either directory are those of the other xor the
    payload. *)
Theorem diff_dir_payload_bits (w : World) (p1 p2 : Path.t) m1 es1 m2 es2 :
  Fs.walk (fs_root w) p1 = Some (Fs.Dir m1 es1) ->
  Fs.walk (fs_root w) p2 = Some (Fs.Dir m2 es2) ->
  exists s z,
    diff_dir w p1 p2 = Ok (s, Bits z) /\
    (forall i, 0 <= i < 12 ->
       Z.testbit z i = xorb (Z.testbit m1 i) (Z.testbit m2 i)) /\
    (forall i, 12 <= i -> Z.testbit z i = false) /\
    get_perms w p2 = Ok (Z.lxor (S_IMODE m1) z) /\
    get_perms w p1 = Ok (Z.lxor (S_IMODE m2) z).
Proof.
  intros H1 H2. rewrite (diff_dir_dirs _ _ _ _ _ _ _ H1 H2).
  do 2 eexists. split; [reflexivity|].
  assert (forall m i, 0 <= i ->
            Z.testbit (S_IMODE m) i = Z.testbit m i && (i <? 12)) as Hbit.
  { intros m i Hi. rewrite S_IMODE_low12, Z.land_spec.
    destruct (Z.ltb_spec i 12).
    - rewrite Z.ones_spec_low by lia. reflexivity.
    - rewrite Z.ones_spec_high by lia. reflexivity. }
  split; [|split; [|split]].
  - intros i Hi. rewrite Z.lxor_spec, !Hbit by lia.
    assert ((i <? 12) = true) as -> by (apply Z.ltb_lt; lia).
    rewrite !andb_true_r. reflexivity.
  - intros i Hi. rewrite Z.lxor_spec, !Hbit by lia.
    assert ((i <? 12) = false) as -> by (apply Z.ltb_ge; lia).
    rewrite !andb_false_r. reflexivity.
  - unfold get_perms, lstat. rewrite H2. simpl.
    rewrite <- Z.lxor_assoc, Z.lxor_nilpotent, Z.lxor_0_l. reflexivity.
  - unfold get_perms, lstat. rewrite H1. simpl.
    rewrite (Z.lxor_comm (S_IMODE m1)), <- Z.lxor_assoc, Z.lxor_nilpotent,
      Z.lxor_0_l.
    reflexivity.
Qed.

Lemma diff_dir_payload_bits_witness :
  exists z,
    diff_dir Sample.w_pipe Sample.expected_out Sample.home_out
    = Ok (DIFF_FAIL, Bits z) /\
    Z.testbit z 0 = true /\ Z.testbit z 3 = true /\ Z.testbit z 6 = false /\
    Z.lxor (octal "755") z = octal "744".
Proof.
  destruct (diff_dir_payload_bits Sample.w_pipe Sample.expected_out
              Sample.home_out _ _ _ _ eq_refl eq_refl)
    as [s [z [Hrun [Hlow [_ [Hperm _]]]]]].
  assert (s = DIFF_FAIL) as ->
      by (vm_compute in Hrun; injection Hrun as <- _; reflexivity).
  exists z. split; [exact Hrun|].
  split; [rewrite Hlow by lia; reflexivity|].
  split; [rewrite Hlow by lia; reflexivity|].
  split; [rewrite Hlow by lia; reflexivity|].
  injection Hperm as Hperm. symmetry. exact Hperm.
Defined.


(** ** [diff] *)






(** ** [exec] *)

(** X9.  Whatever keyword arguments the caller gives, [exec] runs the
    command with [capture_output] and [text] set to [True]: the caller
    cannot turn them off; every other keyword argument is passed on
    unchanged. *)
Theorem exec_args_forced (kwargs : gmap string kwarg) :
  exec_args kwargs !! "capture_output" = Some (KwBool true) /\
  exec_args kwargs !! "text" = Some (KwBool true) /\
  (forall key, key <> "capture_output" -> key <> "text" ->
     exec_args kwargs !! key = kwargs !! key) /\
  exec_args (exec_args kwargs) = exec_args kwargs.
Proof.
  unfold exec_args. split; [|split; [|split]].
  - rewrite lookup_insert_ne by discriminate. apply lookup_insert_eq.
  - apply lookup_insert_eq.
  - intros key H1 H2. rewrite !lookup_insert_ne by congruence. reflexivity.
  - apply map_eq. intros key.
    destruct (decide (key = "text")) as [->|H2].
    { rewrite !lookup_insert_eq. reflexivity. }
    rewrite !(lookup_insert_ne _ "text") by congruence.
    destruct (decide (key = "capture_output")) as [->|H1].
    { rewrite !lookup_insert_eq. reflexivity. }
    rewrite !(lookup_insert_ne _ "capture_output") by congruence.
    rewrite !lookup_insert_ne by congruence. reflexivity.
Qed.

Lemma exec_args_forced_witness :
  let kwargs : gmap string kwarg :=
    {[ "text" := KwBool false; "cwd" := KwObject (PyStr "/tmp") ]} in
  exec_args kwargs !! "text" = Some (KwBool true) /\
  exec_args kwargs !! "cwd" = Some (KwObject (PyStr "/tmp")).
Proof.
  intros kwargs.
  destruct (exec_args_forced kwargs) as [_ [Htext [Hother _]]].
  split; [exact Htext|].
  rewrite Hother by discriminate. reflexivity.
Defined.

(** ** [build_run_cmd] *)

Module CommandFacts.

Lemma append_assoc (a b c : string) : (a +:+ b) +:+ c = a +:+ (b +:+ c).
Proof.
  induction a as [|x a IH]; [reflexivity|].
  change (String x ((a +:+ b) +:+ c) = String x (a +:+ b +:+ c)).
  rewrite IH. reflexivity.
Qed.

Lemma space_free_append (a b : string) :
  space_free (a +:+ b) = space_free a && space_free b.
Proof.
  induction a as [|x a IH]; simpl; [reflexivity|].
  rewrite IH, andb_assoc. reflexivity.
Qed.

Lemma word_space_free s : word s = true -> space_free s = true.
Proof. unfold word. intros H. apply andb_prop in H. tauto. Qed.

Lemma split_space_atom c : space_free c = true -> split_space c = [c].
Proof.
  induction c as [|a c IH]; simpl; [reflexivity|].
  intros H. apply andb_prop in H as [Ha Hc].
  apply negb_true_iff in Ha. rewrite Ha, (IH Hc). reflexivity.
Qed.

Lemma split_space_cons c s :
  space_free c = true -> split_space (c +:+ " " +:+ s) = c :: split_space s.
Proof.
  induction c as [|a c IH]; simpl; [reflexivity|].
  intros H. apply andb_prop in H as [Ha Hc].
  apply negb_true_iff in Ha. rewrite Ha.
  simpl in IH. rewrite (IH Hc). reflexivity.
Qed.

Lemma split_space_join (ws : list string) :
  ws <> [] -> Forall (fun c => space_free c = true) ws ->
  split_space (Path.join " " ws) = ws.
Proof.
  induction ws as [|c ws IH]; [congruence|].
  intros _ Hws. inversion Hws as [|? ? Hc Hrest]; subst.
  destruct ws as [|d ws].
  - simpl. apply split_space_atom, Hc.
  - change (Path.join " " (c :: d :: ws))
      with (c +:+ " " +:+ Path.join " " (d :: ws)).
    rewrite split_space_cons by exact Hc.
    rewrite IH; [reflexivity | discriminate | exact Hrest].
Qed.

(** A path of space-free names prints without a space. *)
Lemma space_free_join_slash (p : Path.t) :
  Forall (fun c => space_free c = true) p ->
  space_free (Path.join "/" p) = true.
Proof.
  induction p as [|c p IH]; intros Hp; [reflexivity|].
  inversion Hp as [|? ? Hc Hrest]; subst.
  destruct p as [|d p]; [exact Hc|].
  change (Path.join "/" (c :: d :: p))
    with (c +:+ "/" +:+ Path.join "/" (d :: p)).
  rewrite !space_free_append, Hc, (IH Hrest). reflexivity.
Qed.

Lemma space_free_as_posix (p : Path.t) :
  Forall (fun c => space_free c = true) p ->
  space_free (Path.as_posix p) = true.
Proof.
  intros Hp. unfold Path.as_posix.
  rewrite space_free_append, (space_free_join_slash p Hp). reflexivity.
Qed.

(** Paths of legal names print differently. *)
Lemma as_posix_inj (p q : Path.t) :
  Forall (fun c => Path.valid_name c = true) p ->
  Forall (fun c => Path.valid_name c = true) q ->
  Path.as_posix p = Path.as_posix q -> p = q.
Proof.
  intros Hp Hq Heq.
  assert (forall r, Forall (fun c => Path.valid_name c = true) r ->
                    Forall (fun c => Path.slash_free c = true) r) as Hfree.
  { intros r Hr. eapply Forall_impl; [exact Hr|].
    intros c. apply PathFacts.valid_name_slash_free. }
  assert (forall c r, Forall (fun c => Path.valid_name c = true) (c :: r) ->
                      Path.join "/" (c :: r) <> "") as Hne.
  { intros c r Hr Hempty. inversion Hr as [|? ? Hc _]; subst.
    destruct c as [|x c]; [discriminate|].
    destruct r; discriminate. }
  change (String Path.slash (Path.join "/" p)
          = String Path.slash (Path.join "/" q)) in Heq.
  injection Heq as Heq.
  destruct p as [|c p], q as [|d q]; [reflexivity | | |].
  - exfalso. apply (Hne d q Hq). symmetry. exact Heq.
  - exfalso. apply (Hne c p Hp). exact Heq.
  - rewrite <- (PathFacts.split_slash_join (c :: p)),
      <- (PathFacts.split_slash_join (d :: q)) by (discriminate || auto).
    rewrite Heq. reflexivity.
Qed.

(** The command of a checker, cut at the spaces. *)
Lemma split_space_build_run_cmd (self : CheckerBase) :
  space_free (Path.as_posix (target self)) = true ->
  Forall (fun c => space_free c = true) (args self) ->
  split_space (build_run_cmd self) =
    Path.as_posix (target self)
    :: match args self with [] => [""] | _ => args self end.
Proof.
  intros Ht Hargs. unfold build_run_cmd.
  rewrite split_space_cons by exact Ht. f_equal.
  destruct (args self) as [|a rest] eqn:Ha; [reflexivity|].
  apply split_space_join; [discriminate | exact Hargs].
Qed.

End CommandFacts.

(** X11.  [build_run_cmd] does not quote: an argument holding a space
    gives the command of the two arguments around the space, and an empty
    argument gives the command of no argument at all, which ends in a
    space. *)
Theorem build_run_cmd_not_quoted
        (t : Path.t) (a b : string) (rest : list string) (st st' : pyval) :
  build_run_cmd {| target := t; args := (a +:+ " " +:+ b) :: rest; status := st |}
  = build_run_cmd {| target := t; args := a :: b :: rest; status := st' |} /\
  build_run_cmd {| target := t; args := [""]; status := st |}
  = build_run_cmd {| target := t; args := []; status := st' |} /\
  build_run_cmd {| target := t; args := []; status := st |}
  = Path.as_posix t +:+ " ".
Proof.
  unfold build_run_cmd. cbn [target args]. split; [|split; reflexivity].
  do 2 f_equal. destruct rest as [|c rest]; [reflexivity|].
  change (Path.join " " ((a +:+ " " +:+ b) :: c :: rest))
    with ((a +:+ " " +:+ b) +:+ " " +:+ Path.join " " (c :: rest)).
  change (Path.join " " (a :: b :: c :: rest))
    with (a +:+ " " +:+ b +:+ " " +:+ Path.join " " (c :: rest)).
  rewrite CommandFacts.append_assoc. reflexivity.
Qed.

(** X16.  When the names of the target and the arguments are non-empty
    and hold no space, the command determines the invocation: with at
    least one argument, cutting it at the spaces gives the printed target
    followed by the arguments, and two checkers with the same command have
    the same target and the same arguments. *)
Theorem build_run_cmd_injective (self1 self2 : CheckerBase) :
  Forall (fun c => Path.valid_name c = true /\ space_free c = true)
         (target self1) ->
  Forall (fun c => Path.valid_name c = true /\ space_free c = true)
         (target self2) ->
  Forall (fun a => word a = true) (args self1) ->
  Forall (fun a => word a = true) (args self2) ->
  (args self1 <> [] ->
   split_space (build_run_cmd self1)
   = Path.as_posix (target self1) :: args self1) /\
  (build_run_cmd self1 = build_run_cmd self2 ->
   target self1 = target self2 /\ args self1 = args self2).
Proof.
  intros Ht1 Ht2 Ha1 Ha2.
  assert (forall self,
            Forall (fun c => Path.valid_name c = true /\ space_free c = true)
                   (target self) ->
            Forall (fun a => word a = true) (args self) ->
            split_space (build_run_cmd self) =
              Path.as_posix (target self)
              :: match args self with [] => [""] | _ => args self end)
    as Hsplit.
  { intros self Ht Ha. apply CommandFacts.split_space_build_run_cmd.
    - apply CommandFacts.space_free_as_posix.
      eapply Forall_impl; [exact Ht|]. intros c [_ Hc]. exact Hc.
    - eapply Forall_impl; [exact Ha|]. apply CommandFacts.word_space_free. }
  split.
  - intros Hne. rewrite (Hsplit self1 Ht1 Ha1).
    destruct (args self1); [congruence | reflexivity].
  - intros Heq.
    pose proof (Hsplit self1 Ht1 Ha1) as H1.
    pose proof (Hsplit self2 Ht2 Ha2) as H2.
    rewrite Heq, H2 in H1.
    pose proof (f_equal (List.hd "") H1) as Htarget.
    pose proof (f_equal (@List.tl string) H1) as Hargs.
    cbn [List.hd List.tl] in Htarget, Hargs.
    split.
    + symmetry. apply CommandFacts.as_posix_inj; [ | | exact Htarget].
      * eapply Forall_impl; [exact Ht2|]. intros c [Hc _]. exact Hc.
      * eapply Forall_impl; [exact Ht1|]. intros c [Hc _]. exact Hc.
    + destruct (args self1) as [|a1 r1] eqn:E1,
               (args self2) as [|a2 r2] eqn:E2; try reflexivity.
      * injection Hargs as -> ->. inversion Ha2 as [|? ? Hw _]; subst.
        discriminate.
      * injection Hargs as <- <-. inversion Ha1 as [|? ? Hw _]; subst.
        discriminate.
      * symmetry. exact Hargs.
Qed.

Lemma build_run_cmd_injective_witness :
  build_run_cmd Cases.prog = "/bin/prog -n 3" /\
  split_space (build_run_cmd Cases.prog) = ["/bin/prog"; "-n"; "3"].
Proof.
  split; [reflexivity|].
  apply (build_run_cmd_injective Cases.prog Cases.prog);
    try (repeat constructor); discriminate.
Defined.

(** ** The console mapping *)

Module ConsoleFacts.
Import AggregatorFacts.

Section Console.

Variable env : RunnerEnv.
Variable w : World.

(** What the loop over the pairs of the names [ns] leaves in the
    mapping, when it returns. *)
Lemma console_loop_lookup (ns : list string) : forall console,
  for_each (collect_cio env w)
    (map (fun n => (EXPECTED_CONSOLE env ++ [n], OUTPUT_DIR env ++ [n])) ns) ∅
  = Ok console ->
  (forall n, In n ns -> n = F_STDOUT env \/ n = F_STDERR env) /\
  (In (F_STDOUT env) ns ->
   exists o, diff w (EXPECTED_CONSOLE env ++ [F_STDOUT env])
                    (OUTPUT_DIR env ++ [F_STDOUT env]) = Ok o /\
             console !! "stdout" = Some o) /\
  (~ In (F_STDOUT env) ns -> console !! "stdout" = None) /\
  (In (F_STDERR env) ns -> F_STDERR env <> F_STDOUT env ->
   exists o, diff w (EXPECTED_CONSOLE env ++ [F_STDERR env])
                    (OUTPUT_DIR env ++ [F_STDERR env]) = Ok o /\
             console !! "stderr" = Some o) /\
  (~ In (F_STDERR env) ns \/ F_STDERR env = F_STDOUT env ->
   console !! "stderr" = None) /\
  (forall key, key <> "stdout" -> key <> "stderr" -> console !! key = None).
Proof.
  induction ns as [|n ns IH] using rev_ind; intros console Hloop.
  - injection Hloop as <-.
    split; [contradiction|]. split; [contradiction|].
    split; [intros _; apply lookup_empty|]. split; [contradiction|].
    split; intros; apply lookup_empty.
  - rewrite map_app in Hloop. apply for_each_snoc in Hloop as [c' [Hns Hn]].
    destruct (IH c' Hns) as [Hnames [Hout [Hnout [Herr [Hnerr Hother]]]]].
    clear IH Hns.
    cbv beta in Hn.
    pose proof (PathFacts.name_snoc (EXPECTED_CONSOLE env) n) as Hname.
    apply collect_cio_Ok in Hn as [o [Ho [[Hn1 ->] | [Hn1 [Hn2 ->]]]]].
    + rewrite Hname in Hn1. subst n.
      split; [|split; [|split; [|split; [|split]]]].
      * intros n Hin. apply in_app_or in Hin as [Hin | [<- | []]]; auto.
      * intros _. exists o. split; [exact Ho | apply lookup_insert_eq].
      * intros Hnot. exfalso. apply Hnot, in_or_app. simpl. auto.
      * intros Hin Hne. rewrite lookup_insert_ne by discriminate.
        apply Herr; [|exact Hne].
        apply in_app_or in Hin as [Hin | [Heq | []]]; [exact Hin | congruence].
      * intros H. rewrite lookup_insert_ne by discriminate.
        apply Hnerr. destruct H as [H | H]; [left | right; exact H].
        intros Hin. apply H, in_or_app. auto.
      * intros key H1 H2. rewrite lookup_insert_ne by congruence. auto.
    + rewrite Hname in Hn1, Hn2. subst n.
      split; [|split; [|split; [|split; [|split]]]].
      * intros n Hin. apply in_app_or in Hin as [Hin | [<- | []]]; auto.
      * intros Hin. rewrite lookup_insert_ne by discriminate.
        apply Hout.
        apply in_app_or in Hin as [Hin | [Heq | []]]; [exact Hin | congruence].
      * intros Hnot. rewrite lookup_insert_ne by discriminate.
        apply Hnout. intros Hin. apply Hnot, in_or_app. auto.
      * intros _ _. exists o. split; [exact Ho | apply lookup_insert_eq].
      * intros [Hnot | Heq]; [|congruence].
        exfalso. apply Hnot, in_or_app. simpl. auto.
      * intros key H1 H2. rewrite lookup_insert_ne by congruence. auto.
Qed.

(** A verdict is returned only if the expected console root is a
    directory. *)
Lemma collect_result_console_dir self v :
  collect_result env w self = Ok v ->
  exists m es,
    Fs.walk (fs_root w) (EXPECTED_CONSOLE env) = Some (Fs.Dir m es).
Proof.
  unfold collect_result, find_cio_pairs, iterdir. intros H.
  destruct (Fs.walk (fs_root w) (EXPECTED_CONSOLE env)) as [[| m es |m []]|];
    try discriminate.
  eauto.
Qed.

Lemma collect_result_console_loop self v m es :
  Fs.walk (fs_root w) (EXPECTED_CONSOLE env) = Some (Fs.Dir m es) ->
  collect_result env w self = Ok v ->
  for_each (collect_cio env w)
    (map (fun n => (EXPECTED_CONSOLE env ++ [n], OUTPUT_DIR env ++ [n]))
         (List.filter (fun n => negb (String.eqb n (F_STDIN env)))
                      (map fst es))) ∅
  = Ok (Verdict.console v).
Proof.
  intros Hdir Hv. rewrite (collect_result_eq env w self m es Hdir) in Hv.
  apply bind_Ok in Hv as [console [Hconsole Hv]].
  apply bind_Ok in Hv as [file [_ Hv]]. injection Hv as <-. exact Hconsole.
Qed.

Lemma in_listed (es : list (string * Fs.node)) n :
  In n (List.filter (fun n => negb (String.eqb n (F_STDIN env))) (map fst es))
  <-> In n (map fst es) /\ n <> F_STDIN env.
Proof.
  rewrite filter_In, negb_true_iff, String.eqb_neq. reflexivity.
Qed.

End Console.
End ConsoleFacts.

(** X10.  The console mapping of a verdict, entry by entry.  It holds
    the key [stdout] exactly when the expected console directory lists an
    entry named [F_STDOUT] (and that is not the name of the input), with
    the comparison of that file and its counterpart in [OUTPUT_DIR]; the
    same for [stderr] and [F_STDERR], unless the two names coincide; and
    it holds no other key. *)
Theorem collect_result_console_map
        (env : RunnerEnv) (w : World) (self : CheckerBase) (v : Verdict.t)
        (m : Z) (es : list (string * Fs.node)) :
  Fs.walk (fs_root w) (EXPECTED_CONSOLE env) = Some (Fs.Dir m es) ->
  collect_result env w self = Ok v ->
  let listed n := In n (map fst es) /\ n <> F_STDIN env in
  (listed (F_STDOUT env) ->
   exists o, diff w (EXPECTED_CONSOLE env ++ [F_STDOUT env])
                    (OUTPUT_DIR env ++ [F_STDOUT env]) = Ok o /\
             Verdict.console v !! "stdout" = Some o) /\
  (~ listed (F_STDOUT env) -> Verdict.console v !! "stdout" = None) /\
  (listed (F_STDERR env) -> F_STDERR env <> F_STDOUT env ->
   exists o, diff w (EXPECTED_CONSOLE env ++ [F_STDERR env])
                    (OUTPUT_DIR env ++ [F_STDERR env]) = Ok o /\
             Verdict.console v !! "stderr" = Some o) /\
  (~ listed (F_STDERR env) \/ F_STDERR env = F_STDOUT env ->
   Verdict.console v !! "stderr" = None) /\
  (forall key, key <> "stdout" -> key <> "stderr" ->
     Verdict.console v !! key = None).
Proof.
  intros Hdir Hv listed.
  pose proof (ConsoleFacts.collect_result_console_loop env w self v m es Hdir Hv)
    as Hloop.
  destruct (ConsoleFacts.console_loop_lookup env w _ _ Hloop)
    as [_ [Hout [Hnout [Herr [Hnerr Hother]]]]].
  unfold listed. rewrite <- !ConsoleFacts.in_listed.
  split; [exact Hout|]. split; [exact Hnout|]. split; [exact Herr|].
  split; [exact Hnerr | exact Hother].
Qed.

Lemma collect_result_console_map_witness :
  exists v,
    collect_result Sample.env Cases.w_both Sample.checker = Ok v /\
    Verdict.console v !! "stdout"
    = Some (DIFF_FAIL,
            Text ("1c1" +:+ newline +:+ "< 5" +:+ newline +:+ "---" +:+ newline
                  +:+ "> 6" +:+ newline)) /\
    Verdict.console v !! "stdin" = None.
Proof.
  destruct (collect_result Sample.env Cases.w_both Sample.checker)
    as [v|e] eqn:Hv; [|vm_compute in Hv; discriminate].
  exists v. split; [reflexivity|].
  destruct (collect_result_console_map Sample.env Cases.w_both Sample.checker v
              _ _ eq_refl Hv) as [Hout [_ [_ [_ Hother]]]].
  split; [|apply Hother; discriminate].
  destruct Hout as [o [Ho Hlook]].
  { split; [right; left; reflexivity | discriminate]. }
  unfold outcome in *. rewrite Hlook.
  vm_compute in Ho. injection Ho as <-. reflexivity.
Defined.

(** ** Exceptions of [collect_result] *)




(** ** The file mapping *)

Lemma file_entry_compared (env : RunnerEnv) (w : World) (rel : Path.t) :
  is_Some (file_entry env w rel) -> compared env w rel = true.
Proof.
  unfold file_entry, compared.
  destruct (is_file w (EXPECTED_FILE env ++ rel)); [reflexivity|].
  destruct (is_dir w (EXPECTED_FILE env ++ rel)); [reflexivity|].
  intros [? ?]; discriminate.
Qed.

(** X8.  A missing expected-file root is not an error: when it is absent,
    not a directory, or an empty directory, there are no file pairs and
    the file mapping of the verdict is empty. *)
Theorem find_file_pairs_nothing_expected
        (env : RunnerEnv) (w : World) :
  (forall m es,
     Fs.walk (fs_root w) (EXPECTED_FILE env) = Some (Fs.Dir m es) -> es = []) ->
  find_file_pairs env w = Ok [] /\
  forall self v, collect_result env w self = Ok v -> Verdict.file v = ∅.
Proof.
  intros Hnone.
  assert (expected_entries env w = []) as Hentries.
  { unfold expected_entries.
    destruct (Fs.walk (fs_root w) (EXPECTED_FILE env)) as [[| m es |]|];
      try reflexivity.
    rewrite (Hnone m es eq_refl). reflexivity. }
  split.
  - rewrite ResolverFacts.find_file_pairs_eq, Hentries. reflexivity.
  - intros self v Hv. apply collect_result_Ok in Hv as [_ [_ [_ [Hfile _]]]].
    rewrite Hentries in Hfile. injection Hfile as <-. reflexivity.
Qed.

Lemma find_file_pairs_nothing_expected_witness :
  Fs.walk (fs_root Cases.w_no_file_root) (EXPECTED_FILE Sample.env) = None /\
  find_file_pairs Sample.env Cases.w_no_file_root = Ok [] /\
  exists v,
    collect_result Sample.env Cases.w_no_file_root Sample.checker = Ok v /\
    Verdict.file v = ∅.
Proof.
  split; [reflexivity|].
  destruct (find_file_pairs_nothing_expected Sample.env Cases.w_no_file_root)
    as [Hpairs Hfile]; [discriminate|].
  split; [exact Hpairs|].
  destruct (collect_result Sample.env Cases.w_no_file_root Sample.checker)
    as [v|e] eqn:Hv; [|vm_compute in Hv; discriminate].
  exists v. split; [reflexivity | exact (Hfile _ _ Hv)].
Defined.

(** X12.  The status of a verdict is the status stored in the checker,
    as it is; a checker on which none was stored since [__init__] yields
    [None]. *)
Theorem collect_result_status
        (env : RunnerEnv) (w : World) (self : CheckerBase) (v : Verdict.t) :
  collect_result env w self = Ok v ->
  Verdict.status v = status self /\
  (forall t a, self = CheckerBase_init t a -> Verdict.status v = PyNone).
Proof.
  intros Hv. apply collect_result_Ok in Hv as [_ [_ [_ [_ Hstatus]]]].
  split; [exact Hstatus|]. intros t a ->. exact Hstatus.
Qed.

Lemma collect_result_status_witness :
  exists v,
    collect_result Sample.env Sample.w_six (CheckerBase_init ["bin"; "prog"] [])
    = Ok v /\
    Verdict.status v = PyNone.
Proof.
  destruct (collect_result Sample.env Sample.w_six
              (CheckerBase_init ["bin"; "prog"] []))
    as [v|e] eqn:Hv; [|vm_compute in Hv; discriminate].
  exists v. split; [reflexivity|].
  apply (proj2 (collect_result_status _ _ _ v Hv) ["bin"; "prog"] []).
  reflexivity.
Defined.

(** X13.  Every entry of the file mapping belongs to an expected entry:
    its key, cut at the slashes, is the relative path of a regular file or
    a directory below the expected-file root, and its value is the
    comparison of that entry with its counterpart below [HOME_DIR]. *)
Theorem file_mapping_sound
        (env : RunnerEnv) (w : World) (self : CheckerBase) (v : Verdict.t)
        (key : string) (o : outcome) :
  World_ok w = true ->
  collect_result env w self = Ok v ->
  Verdict.file v !! key = Some o ->
  let rel := Path.split_slash key in
  rel <> [] /\ key = Path.as_posix_rel rel /\
  (is_file w (EXPECTED_FILE env ++ rel) = true /\
   diff w (EXPECTED_FILE env ++ rel) (HOME_DIR env ++ rel) = Ok o
   \/
   is_dir w (EXPECTED_FILE env ++ rel) = true /\
   diff_dir w (EXPECTED_FILE env ++ rel) (HOME_DIR env ++ rel) = Ok o).
Proof.
  intros Hok Hv Hkey.
  destruct (collect_result_file_complete env w self v Hok Hv) as [_ [_ Hkeys]].
  destruct (Hkeys key (ex_intro _ o Hkey)) as [rel [Hrel ->]].
  destruct (ResolverFacts.expected_entries_sound env w rel Hok Hrel)
    as [Hne [_ Hfree]].
  assert (Path.split_slash (Path.as_posix_rel rel) = rel) as Hsplit.
  { destruct rel; [congruence|].
    apply PathFacts.split_slash_join; [discriminate | exact Hfree]. }
  cbv zeta. rewrite Hsplit. split; [exact Hne|]. split; [reflexivity|].
  destruct (collect_result_file_map env w self v Hok Hv) as [Hin _].
  rewrite (Hin rel Hrel) in Hkey. unfold file_entry in Hkey.
  destruct (is_file w (EXPECTED_FILE env ++ rel)).
  - left. split; [reflexivity|].
    destruct (diff w (EXPECTED_FILE env ++ rel) (HOME_DIR env ++ rel));
      [injection Hkey as ->; reflexivity | discriminate].
  - destruct (is_dir w (EXPECTED_FILE env ++ rel)); [|discriminate].
    right. split; [reflexivity|].
    destruct (diff_dir w (EXPECTED_FILE env ++ rel) (HOME_DIR env ++ rel));
      [injection Hkey as ->; reflexivity | discriminate].
Qed.

Lemma file_mapping_sound_witness :
  exists v,
    collect_result Sample.env Sample.w_pipe Sample.checker = Ok v /\
    Verdict.file v !! "out/a.txt" = Some (DIFF_ERR, Text "") /\
    Path.split_slash "out/a.txt" = ["out"; "a.txt"] /\
    is_file Sample.w_pipe (EXPECTED_FILE Sample.env ++ ["out"; "a.txt"]) = true.
Proof.
  destruct (collect_result Sample.env Sample.w_pipe Sample.checker)
    as [v|e] eqn:Hv; [|vm_compute in Hv; discriminate].
  exists v. split; [reflexivity|].
  assert (Verdict.file v !! "out/a.txt" = Some (DIFF_ERR, Text "")) as Hkey.
  { vm_compute in Hv. injection Hv as <-. reflexivity. }
  split; [exact Hkey|]. split; [reflexivity|].
  destruct (file_mapping_sound Sample.env Sample.w_pipe Sample.checker v
              "out/a.txt" (DIFF_ERR, Text "") eq_refl Hv Hkey)
    as [_ [_ [[Hfile _] | [Hdir _]]]].
  - exact Hfile.
  - vm_compute in Hdir. discriminate.
Defined.

(** X14.  The file mapping has one entry for each regular file and each
    directory below the expected-file root: its size is their number,
    and its keys are their relative paths. *)
Theorem file_mapping_size
        (env : RunnerEnv) (w : World) (self : CheckerBase) (v : Verdict.t) :
  World_ok w = true ->
  collect_result env w self = Ok v ->
  let entries := List.filter (compared env w) (expected_entries env w) in
  size (Verdict.file v) = length entries /\
  dom (Verdict.file v) = list_to_set (map Path.as_posix_rel entries).
Proof.
  intros Hok Hv entries.
  destruct (collect_result_file_map env w self v Hok Hv) as [Hin Hout].
  assert (dom (Verdict.file v)
          = (list_to_set (map Path.as_posix_rel entries) : gset string))
    as Hdom.
  { apply set_eq. intros key.
    rewrite elem_of_dom, elem_of_list_to_set, list_elem_of_In, in_map_iff.
    unfold entries. split.
    - intros Hkey.
      destruct (collect_result_file_complete env w self v Hok Hv)
        as [_ [_ Hkeys]].
      destruct (Hkeys key Hkey) as [rel [Hrel ->]].
      exists rel. split; [reflexivity|]. apply filter_In.
      split; [exact Hrel|]. apply file_entry_compared.
      rewrite <- (Hin rel Hrel). exact Hkey.
    - intros [rel [<- Hrel]]. apply filter_In in Hrel as [Hrel Hc].
      rewrite (Hin rel Hrel).
      exact (collect_result_compared env w self v rel Hok Hv Hrel Hc). }
  split; [|exact Hdom].
  rewrite <- size_dom, Hdom, size_list_to_set; [apply length_map|].
  apply NoDup_fmap_2_strong.
  - intros r r' Hr Hr' Heq.
    apply list_elem_of_In, filter_In in Hr as [Hr _].
    apply list_elem_of_In, filter_In in Hr' as [Hr' _].
    exact (AggregatorFacts.expected_keys_inj env w r r' Hok Hr Hr' Heq).
  - apply NoDup_ListNoDup, List.NoDup_filter, NoDup_ListNoDup.
    apply ResolverFacts.NoDup_expected_entries, Hok.
Qed.

Lemma file_mapping_size_witness :
  exists v,
    collect_result Sample.env Sample.w_pipe Sample.checker = Ok v /\
    length (expected_entries Sample.env Sample.w_pipe) = 3%nat /\
    size (Verdict.file v) = 2%nat.
Proof.
  destruct (collect_result Sample.env Sample.w_pipe Sample.checker)
    as [v|e] eqn:Hv; [|vm_compute in Hv; discriminate].
  exists v. split; [reflexivity|]. split; [reflexivity|].
  rewrite (proj1 (file_mapping_size Sample.env Sample.w_pipe Sample.checker v
                    eq_refl Hv)).
  reflexivity.
Defined.

(** ** Outcomes *)

Lemma diff_dir_outcome (w : World) (p1 p2 : Path.t) (s : Z) (pl : payload) :
  diff_dir w p1 p2 = Ok (s, pl) ->
  is_status s /\ exists z, pl = Bits z /\ 0 <= z < 2 ^ 12.
Proof.
  unfold is_status.
  destruct (is_dir w p1) eqn:D1; [destruct (is_dir w p2) eqn:D2|].
  - apply is_dir_walk in D1 as [m1 [es1 H1]].
    apply is_dir_walk in D2 as [m2 [es2 H2]].
    rewrite (diff_dir_dirs _ _ _ _ _ _ _ H1 H2). intros [= <- <-]. split.
    + destruct (S_IMODE m1 =? S_IMODE m2); auto.
    + eexists. split; [reflexivity|].
      apply lxor_range; [lia | apply S_IMODE_range..].
  - rewrite diff_dir_not_dir by auto. intros [= <- <-].
    split; [auto|]. exists 0. split; [reflexivity | lia].
  - rewrite diff_dir_not_dir by auto. intros [= <- <-].
    split; [auto|]. exists 0. split; [reflexivity | lia].
Qed.

(** X15.  In a verdict every status is one of [DIFF_PASS], [DIFF_FAIL]
    and [DIFF_ERR], and the kind of the payload follows the kind of the
    expected entry: text for the console channels and for regular files,
    permission bits below 2^12 for directories. *)
Theorem verdict_outcomes
        (env : RunnerEnv) (w : World) (self : CheckerBase) (v : Verdict.t) :
  World_ok w = true ->
  collect_result env w self = Ok v ->
  (forall key s pl,
     Verdict.console v !! key = Some (s, pl) ->
     is_status s /\ exists t, pl = Text t) /\
  (forall key s pl,
     Verdict.file v !! key = Some (s, pl) ->
     is_status s /\
     let expected := EXPECTED_FILE env ++ Path.split_slash key in
     (is_file w expected = true -> exists t, pl = Text t) /\
     (is_file w expected = false ->
      exists z, pl = Bits z /\ 0 <= z < 2 ^ 12)).
Proof.
  intros Hok Hv. split.
  - intros key s pl Hkey.
    destruct (ConsoleFacts.collect_result_console_dir env w self v Hv)
      as [m [es Hdir]].
    pose proof (ConsoleFacts.collect_result_console_loop env w self v m es
                  Hdir Hv) as Hloop.
    destruct (ConsoleFacts.console_loop_lookup env w _ _ Hloop)
      as [_ [Hout [Hnout [Herr [Hnerr Hother]]]]].
    destruct (decide (key = "stdout")) as [->|Hk1].
    + destruct (in_dec string_dec (F_STDOUT env)
                  (List.filter (fun n => negb (String.eqb n (F_STDIN env)))
                               (map fst es))) as [Hin | Hnin].
      * destruct (Hout Hin) as [o [Ho Hlook]]. unfold outcome in *.
        rewrite Hlook in Hkey. injection Hkey as ->.
        exact (diff_outcome _ _ _ _ _ Ho).
      * unfold outcome in *. rewrite (Hnout Hnin) in Hkey. discriminate.
    + destruct (decide (key = "stderr")) as [->|Hk2].
      * destruct (in_dec string_dec (F_STDERR env)
                    (List.filter (fun n => negb (String.eqb n (F_STDIN env)))
                                 (map fst es))) as [Hin | Hnin];
          [destruct (string_dec (F_STDERR env) (F_STDOUT env)) as [Heq | Hne]|].
        -- unfold outcome in *. rewrite (Hnerr (or_intror Heq)) in Hkey.
           discriminate.
        -- destruct (Herr Hin Hne) as [o [Ho Hlook]]. unfold outcome in *.
           rewrite Hlook in Hkey. injection Hkey as ->.
           exact (diff_outcome _ _ _ _ _ Ho).
        -- unfold outcome in *. rewrite (Hnerr (or_introl Hnin)) in Hkey.
           discriminate.
      * unfold outcome in *. rewrite (Hother key Hk1 Hk2) in Hkey.
        discriminate.
  - intros key s pl Hkey.
    destruct (collect_result_file_complete env w self v Hok Hv) as [_ [_ Hkeys]].
    destruct (Hkeys key (ex_intro _ _ Hkey)) as [rel [Hrel ->]].
    destruct (ResolverFacts.expected_entries_sound env w rel Hok Hrel)
      as [Hne [_ Hfree]].
    assert (Path.split_slash (Path.as_posix_rel rel) = rel) as Hsplit.
    { destruct rel; [congruence|].
      apply PathFacts.split_slash_join; [discriminate | exact Hfree]. }
    cbv zeta. rewrite Hsplit.
    destruct (collect_result_file_map env w self v Hok Hv) as [Hin _].
    unfold outcome in *. rewrite (Hin rel Hrel) in Hkey.
    unfold file_entry in Hkey.
    destruct (is_file w (EXPECTED_FILE env ++ rel)).
    + destruct (diff w (EXPECTED_FILE env ++ rel) (HOME_DIR env ++ rel))
        as [o|] eqn:Ho; [|discriminate].
      injection Hkey as ->. destruct (diff_outcome _ _ _ _ _ Ho) as [Hs Ht].
      split; [exact Hs|]. split; [intros _; exact Ht | discriminate].
    + destruct (is_dir w (EXPECTED_FILE env ++ rel)); [|discriminate].
      destruct (diff_dir w (EXPECTED_FILE env ++ rel) (HOME_DIR env ++ rel))
        as [o|] eqn:Ho; [|discriminate].
      injection Hkey as ->. destruct (diff_dir_outcome _ _ _ _ _ Ho) as [Hs Hz].
      split; [exact Hs|]. split; [discriminate | intros _; exact Hz].
Qed.

Lemma verdict_outcomes_witness :
  exists v,
    collect_result Sample.env Sample.w_pipe Sample.checker = Ok v /\
    Verdict.file v !! "out" = Some (DIFF_FAIL, Bits (octal "011")) /\
    is_status DIFF_FAIL /\ 0 <= octal "011" < 2 ^ 12.
Proof.
  destruct (collect_result Sample.env Sample.w_pipe Sample.checker)
    as [v|e] eqn:Hv; [|vm_compute in Hv; discriminate].
  exists v. split; [reflexivity|].
  assert (Verdict.file v !! "out" = Some (DIFF_FAIL, Bits (octal "011")))
    as Hkey by (vm_compute in Hv; injection Hv as <-; reflexivity).
  split; [exact Hkey|].
  destruct (proj2 (verdict_outcomes Sample.env Sample.w_pipe Sample.checker v
                     eq_refl Hv) "out" _ _ Hkey) as [Hs [_ Hbits]].
  split; [exact Hs|].
  destruct (Hbits eq_refl) as [z [[= <-] Hz]]. exact Hz.
Defined.

(** X17.  When the program did not create the entry at [rel], neither
    as a file nor as a directory, everything expected at [rel] or below
    it is reported as an error with an empty payload: [(DIFF_ERR, "")]
    for the regular files and [(DIFF_ERR, 0)] for the directories. *)
Theorem missing_actual_subtree
        (env : RunnerEnv) (w : World) (self : CheckerBase) (v : Verdict.t)
        (rel below : Path.t) :
  World_ok w = true ->
  collect_result env w self = Ok v ->
  rel <> [] ->
  Fs.walk (fs_root w) (HOME_DIR env ++ rel) = None ->
  (is_file w (EXPECTED_FILE env ++ rel ++ below) = true ->
   Verdict.file v !! Path.as_posix_rel (rel ++ below)
   = Some (DIFF_ERR, Text "")) /\
  (is_dir w (EXPECTED_FILE env ++ rel ++ below) = true ->
   Verdict.file v !! Path.as_posix_rel (rel ++ below)
   = Some (DIFF_ERR, Bits 0)).
Proof.
  intros Hok Hv Hne Hmissing.
  assert (Fs.walk (fs_root w) (HOME_DIR env ++ rel ++ below) = None) as Hbelow.
  { rewrite app_assoc, FsFacts.walk_app, Hmissing. reflexivity. }
  assert (rel ++ below <> []) as Hne' by (destruct rel; [congruence | discriminate]).
  destruct (collect_result_file_map env w self v Hok Hv) as [Hin _].
  unfold outcome in *. split.
  - intros Hfile. pose proof Hfile as Hfile'.
    apply is_file_walk in Hfile' as [m [data Hw]].
    rewrite (Hin _ (in_expected_entries env w _ _ Hne' Hw)).
    unfold file_entry. rewrite Hfile.
    rewrite diff_not_regular; [reflexivity|].
    right. unfold is_file. rewrite Hbelow. reflexivity.
  - intros Hdir. pose proof Hdir as Hdir'.
    apply is_dir_walk in Hdir' as [m [es Hw]].
    rewrite (Hin _ (in_expected_entries env w _ _ Hne' Hw)).
    unfold file_entry. rewrite Hdir.
    assert (is_file w (EXPECTED_FILE env ++ rel ++ below) = false) as ->
        by (unfold is_file; rewrite Hw; reflexivity).
    rewrite diff_dir_not_dir; [reflexivity|].
    right. unfold is_dir. rewrite Hbelow. reflexivity.
Qed.

Lemma missing_actual_subtree_witness :
  Fs.walk (fs_root Cases.w_deep) (HOME_DIR Sample.env ++ ["out"]) = None /\
  exists v,
    collect_result Sample.env Cases.w_deep Sample.checker = Ok v /\
    Verdict.file v !! "out/sub/b.txt" = Some (DIFF_ERR, Text "") /\
    Verdict.file v !! "out/sub" = Some (DIFF_ERR, Bits 0).
Proof.
  split; [reflexivity|].
  destruct (collect_result Sample.env Cases.w_deep Sample.checker)
    as [v|e] eqn:Hv; [|vm_compute in Hv; discriminate].
  exists v. split; [reflexivity|]. split.
  - apply (missing_actual_subtree Sample.env Cases.w_deep Sample.checker v
             ["out"] ["sub"; "b.txt"] eq_refl Hv); [discriminate | reflexivity..].
  - apply (missing_actual_subtree Sample.env Cases.w_deep Sample.checker v
             ["out"] ["sub"] eq_refl Hv); [discriminate | reflexivity..].
Defined.

(** X19.  Nothing to compare: when the expected console directory lists
    nothing but the input and the expected-file root holds nothing, the
    verdict has two empty mappings and the stored status. *)
Theorem collect_result_nothing_expected
        (env : RunnerEnv) (w : World) (self : CheckerBase)
        (m : Z) (es : list (string * Fs.node)) :
  Fs.walk (fs_root w) (EXPECTED_CONSOLE env) = Some (Fs.Dir m es) ->
  (forall n, In n (map fst es) -> n = F_STDIN env) ->
  (forall m' es',
     Fs.walk (fs_root w) (EXPECTED_FILE env) = Some (Fs.Dir m' es') ->
     es' = []) ->
  collect_result env w self
  = Ok {| Verdict.console := ∅; Verdict.file := ∅;
          Verdict.status := status self |}.
Proof.
  intros Hdir Hstdin Hnone.
  rewrite (collect_result_eq env w self m es Hdir).
  assert (List.filter (fun n => negb (String.eqb n (F_STDIN env))) (map fst es)
          = []) as ->.
  { induction (map fst es) as [|n ns IH]; [reflexivity|]. simpl.
    rewrite (Hstdin n) by (left; reflexivity). rewrite String.eqb_refl.
    apply IH. intros n' Hn'. apply Hstdin. right; exact Hn'. }
  assert (expected_entries env w = []) as ->.
  { unfold expected_entries.
    destruct (Fs.walk (fs_root w) (EXPECTED_FILE env)) as [[| m' es' |]|];
      try reflexivity.
    rewrite (Hnone m' es' eq_refl). reflexivity. }
  reflexivity.
Qed.

Lemma collect_result_nothing_expected_witness :
  collect_result Sample.env Cases.w_idle Cases.prog
  = Ok {| Verdict.console := ∅; Verdict.file := ∅;
          Verdict.status := PyStr "TLE" |}.
Proof.
  apply (collect_result_nothing_expected Sample.env Cases.w_idle Cases.prog
           _ _ eq_refl).
  - intros n [<- | []]. reflexivity.
  - intros m' es' [= _ <-]. reflexivity.
Defined.

(** X18.  Entries of different kinds are an error, not a difference: an
    expected regular file whose counterpart below [HOME_DIR] is anything
    but a regular file has the entry [(DIFF_ERR, "")], and an expected
    directory whose counterpart is anything but a directory has the entry
    [(DIFF_ERR, 0)]. *)
Theorem kind_mismatch_is_error
        (env : RunnerEnv) (w : World) (self : CheckerBase) (v : Verdict.t)
        (rel : Path.t) :
  World_ok w = true ->
  collect_result env w self = Ok v ->
  rel <> [] ->
  (is_file w (EXPECTED_FILE env ++ rel) = true ->
   is_file w (HOME_DIR env ++ rel) = false ->
   Verdict.file v !! Path.as_posix_rel rel = Some (DIFF_ERR, Text "")) /\
  (is_dir w (EXPECTED_FILE env ++ rel) = true ->
   is_dir w (HOME_DIR env ++ rel) = false ->
   Verdict.file v !! Path.as_posix_rel rel = Some (DIFF_ERR, Bits 0)).
Proof.
  intros Hok Hv Hne.
  destruct (collect_result_file_map env w self v Hok Hv) as [Hin _].
  unfold outcome in *. split.
  - intros Hfile Hactual. pose proof Hfile as Hfile'.
    apply is_file_walk in Hfile' as [m [data Hw]].
    rewrite (Hin _ (in_expected_entries env w _ _ Hne Hw)).
    unfold file_entry. rewrite Hfile.
    rewrite diff_not_regular by auto. reflexivity.
  - intros Hdir Hactual. pose proof Hdir as Hdir'.
    apply is_dir_walk in Hdir' as [m [es Hw]].
    rewrite (Hin _ (in_expected_entries env w _ _ Hne Hw)).
    unfold file_entry. rewrite Hdir.
    assert (is_file w (EXPECTED_FILE env ++ rel) = false) as ->
        by (unfold is_file; rewrite Hw; reflexivity).
    rewrite diff_dir_not_dir by auto. reflexivity.
Qed.

Lemma kind_mismatch_is_error_witness :
  is_dir Cases.w_swapped (EXPECTED_FILE Sample.env ++ ["out"]) = true /\
  is_file Cases.w_swapped (HOME_DIR Sample.env ++ ["out"]) = true /\
  exists v,
    collect_result Sample.env Cases.w_swapped Sample.checker = Ok v /\
    Verdict.file v !! "out" = Some (DIFF_ERR, Bits 0) /\
    Verdict.file v !! "log" = Some (DIFF_ERR, Text "").
Proof.
  split; [reflexivity|]. split; [reflexivity|].
  destruct (collect_result Sample.env Cases.w_swapped Sample.checker)
    as [v|e] eqn:Hv; [|vm_compute in Hv; discriminate].
  exists v. split; [reflexivity|]. split.
  - apply (kind_mismatch_is_error Sample.env Cases.w_swapped Sample.checker v
             ["out"] eq_refl Hv); [discriminate | reflexivity..].
  - apply (kind_mismatch_is_error Sample.env Cases.w_swapped Sample.checker v
             ["log"] eq_refl Hv); [discriminate | reflexivity..].
Defined.
